(** * Kyo: request dispatcher, two-tier cache, charset normalisation

    A shallow embedding of the two entry points of the repository,
    [index.js] (the clustered HTTP/2 server) and [server.js]
    ([createBareHandler]), and of the helpers they share: [send], the
    cache protocol around [memCache] and [redis], and the three regular
    expressions used to route and to normalise documents.

    JavaScript strings are lists of characters, one [ascii] per code
    unit, which restricts them to code units below U+0100; byte buffers
    are lists of [byte].  What lies outside the repository (the URL and
    TextDecoder APIs, zlib, lru-cache, Redis, serve-static, the tunnel
    adapter, the render backend, the upstream) is either a field of
    [Env] or modelled by its documented contract. *)

From Stdlib Require Import Ascii String NArith Lia DecimalString.
From stdpp Require Import base option list strings gmap.

Local Open Scope N_scope.

(** A [Buffer] or [ArrayBuffer]. *)
Abbreviation Buffer := (list Byte.byte).

(** String literals of the source. *)
Definition lit (s : string) : list ascii := String.list_ascii_of_string s.

(** The double quote, U+0022. *)
Definition dquote : ascii := ascii_of_N 34.

(* ================================================================= *)
(** ** JavaScript string primitives *)

Module JS.

(** [String.prototype.startsWith]. *)
Fixpoint startsWith (s p : list ascii) {struct p} : bool :=
  match p, s with
  | [], _ => true
  | c :: p', d :: s' => Ascii.eqb c d && startsWith s' p'
  | _ :: _, [] => false
  end.

(** [String.prototype.includes]. *)
Fixpoint includes (s p : list ascii) : bool :=
  startsWith s p ||
  match s with
  | [] => false
  | _ :: s' => includes s' p
  end.

(** [String.prototype.slice] with one non-negative argument. *)
Definition slice (n : nat) (s : list ascii) : list ascii := drop n s.

(** Lower-casing of one code unit below U+0100: the ASCII capitals and
    the Latin-1 capitals (U+00C0 to U+00DE, the sign U+00D7 apart). *)
Definition lower (c : ascii) : ascii :=
  let n := N_of_ascii c in
  if ((65 <=? n) && (n <=? 90)) || ((192 <=? n) && (n <=? 222) && negb (n =? 215))
  then ascii_of_N (n + 32) else c.

(** [String.prototype.toLowerCase]. *)
Definition toLowerCase (s : list ascii) : list ascii := map lower s.

(** Truthiness of a value that is a string, [undefined] or [null]:
    only a non-empty string is truthy. *)
Definition truthy (v : option (list ascii)) : bool :=
  match v with
  | Some (_ :: _) => true
  | _ => false
  end.

(** [a || b] on such values, [b] already evaluated. *)
Definition or_else (a b : option (list ascii)) : option (list ascii) :=
  if truthy a then a else b.

End JS.

(* ================================================================= *)
(** ** Regular expressions

    The three patterns of the source are sequences of literal characters
    and greedy runs [[^c]+]; this is a backtracking matcher for that
    fragment, with the [i] flag and the [^] anchor. *)

Module Regex.

Inductive atom :=
| Lit (c : ascii)          (* one character *)
| PlusNot (c : ascii).     (* [^c]+, greedy *)

Record t := { anchored : bool; ignoreCase : bool; atoms : list atom }.

(** Canonicalisation under the [i] flag: the ASCII small letters go to
    their capitals; a code unit outside ASCII never meets an ASCII one. *)
Definition upper (c : ascii) : ascii :=
  let n := N_of_ascii c in
  if (97 <=? n) && (n <=? 122) then ascii_of_N (n - 32) else c.

Definition char_eq (ci : bool) (c d : ascii) : bool :=
  if ci then Ascii.eqb (upper c) (upper d) else Ascii.eqb c d.

(** [match_here ci p s]: the pattern [p] matched at the head of [s];
    the result lists how many characters each atom took. *)
Fixpoint match_here (ci : bool) (p : list atom) (s : list ascii) {struct p}
  : option (list nat) :=
  match p with
  | [] => Some []
  | Lit c :: p' =>
      match s with
      | d :: s' => if char_eq ci c d then cons 1%nat <$> match_here ci p' s' else None
      | [] => None
      end
  | PlusNot c :: p' =>
      (fix plus (s : list ascii) : option (list nat) :=
         match s with
         | [] => None
         | d :: s' =>
             if Ascii.eqb d c then None
             else match plus s' with
                  | Some (n :: ns) => Some (S n :: ns)
                  | _ => cons 1%nat <$> match_here ci p' s'
                  end
         end) s
  end.

(** The leftmost match: its start and the lengths of its atoms. *)
Fixpoint search_from (ci : bool) (p : list atom) (s : list ascii)
  : option (nat * list nat) :=
  match match_here ci p s with
  | Some ls => Some (0%nat, ls)
  | None =>
      match s with
      | [] => None
      | _ :: s' => prod_map S id <$> search_from ci p s'
      end
  end.

Definition exec (r : t) (s : list ascii) : option (nat * list nat) :=
  if anchored r then pair 0%nat <$> match_here (ignoreCase r) (atoms r) s
  else search_from (ignoreCase r) (atoms r) s.

(** [String.prototype.replace] with a pattern without the [g] flag and
    a replacement without [$]: the first match is replaced. *)
Definition replace (r : t) (by_ : list ascii) (s : list ascii) : list ascii :=
  match exec r s with
  | Some (i, ls) => take i s ++ by_ ++ drop (i + sum_list ls) s
  | None => s
  end.

(** [String.prototype.match]: group [g] of the first match, when atom
    number [g] of the pattern is the parenthesised one. *)
Definition group (r : t) (g : nat) (s : list ascii) : option (list ascii) :=
  match exec r s with
  | Some (i, ls) =>
      Some (take (ls !!! g) (drop (i + sum_list (take g ls)) s))
  | None => None
  end.

Definition lits (s : string) : list atom := map Lit (lit s).

(** The language of a pattern: [matches ci p m] when the text [m], as
    a whole, is matched by [p]. *)
Inductive matches (ci : bool) : list atom -> list ascii -> Prop :=
| matches_nil : matches ci [] []
| matches_lit c d p m :
    char_eq ci c d = true -> matches ci p m ->
    matches ci (Lit c :: p) (d :: m)
| matches_plus c x p m :
    x <> [] -> Forall (fun d => d <> c) x -> matches ci p m ->
    matches ci (PlusNot c :: p) (x ++ m).

End Regex.

(** [/^\/proxy\//] *)
Definition re_proxy : Regex.t :=
  {| Regex.anchored := true; Regex.ignoreCase := false;
     Regex.atoms := Regex.lits "/proxy/" |}.

(** [/charset=([^;]+)/i]; the group is atom 8. *)
Definition re_charset : Regex.t :=
  {| Regex.anchored := false; Regex.ignoreCase := true;
     Regex.atoms := Regex.lits "charset=" ++ [Regex.PlusNot ";"] |}.

(** [/<meta[^>]+charset=[^>]+>/i] *)
Definition re_meta : Regex.t :=
  {| Regex.anchored := false; Regex.ignoreCase := true;
     Regex.atoms := Regex.lits "<meta" ++ [Regex.PlusNot ">"]
                    ++ Regex.lits "charset=" ++ [Regex.PlusNot ">"; Regex.Lit ">"] |}.

(** ['<meta charset="utf-8">'] *)
Definition meta_utf8 : list ascii :=
  lit "<meta charset=" ++ [dquote] ++ lit "utf-8" ++ [dquote] ++ lit ">".

(** A document declares UTF-8 when it holds a [meta] element whose
    [charset] attribute is [utf-8], in any letter case, quoted or not. *)
Definition declares_utf8 (html : list ascii) : bool :=
  JS.includes (JS.toLowerCase html) (lit "<meta charset=utf-8>") ||
  JS.includes (JS.toLowerCase html) meta_utf8.

(** [html.replace(/<meta[^>]+charset=[^>]+>/i, '<meta charset="utf-8">')] *)
Definition rewrite_meta (html : list ascii) : list ascii :=
  Regex.replace re_meta meta_utf8 html.

(* ================================================================= *)
(** ** The two cache tiers

    Both are collaborators from outside the repository ([lru-cache] and a
    Redis server reached through [ioredis]); they are modelled by their
    documented contracts.  Time is in milliseconds. *)

Module LRU.

Record entry := { key : list ascii; value : list ascii; start : N }.

(** Entries from the most to the least recently used. *)
Definition t := list entry.

(** [new LRU({ max: 500, ttl: 1000 * 60 * 2 })] *)
Definition max : nat := 500.
Definition ttl : N := 1000 * 60 * 2.

Definition empty : t := [].

Definition has_key (k : list ascii) (e : entry) : bool := bool_decide (key e = k).

Definition find (k : list ascii) (c : t) : option entry :=
  List.find (has_key k) c.

Definition remove (k : list ascii) (c : t) : t :=
  List.filter (fun e => negb (has_key k e)) c.

Definition stale (now : N) (e : entry) : bool := ttl <? now - start e.

(** [memCache.get(k)]: a stale entry is dropped and reads as
    [undefined]; a live one becomes the most recently used. *)
Definition get (now : N) (k : list ascii) (c : t) : option (list ascii) * t :=
  match find k c with
  | None => (None, c)
  | Some e =>
      if stale now e then (None, remove k c)
      else (Some (value e), e :: remove k c)
  end.

(** [memCache.set(k, v)]: the entry is (re)written with a fresh age and
    becomes the most recently used; a new key in a full cache evicts
    the least recently used entry. *)
Definition set (now : N) (k v : list ascii) (c : t) : t :=
  let c' := remove k c in
  let c'' := if (max <=? length c')%nat then take (max - 1) c' else c' in
  {| key := k; value := v; start := now |} :: c''.

End LRU.

Module Redis.

(** A key holds its value and the instant it expires at. *)
Abbreviation t := (gmap (list ascii) (list ascii * N)).

(** [GET k]: [None] is the [null] reply. *)
Definition get (now : N) (k : list ascii) (db : t) : option (list ascii) :=
  match db !! k with
  | Some (v, deadline) => if now <=? deadline then Some v else None
  | None => None
  end.

(** [SET k v EX seconds], for [seconds] not zero. *)
Definition set (now : N) (k v : list ascii) (seconds : N) (db : t) : t :=
  <[k := (v, now + seconds * 1000)]> db.

End Redis.

(* ================================================================= *)
(** ** Effects: the trace of a request, the world, the monad *)

(** What [res.end] is given. *)
Inductive Body :=
| Text (s : list ascii)
| Bytes (b : Buffer)
| Exposition.              (* client.register.metrics() *)

(** The code handed to [observe]. *)
Inductive Code :=
| Status (n : N)
| StreamState.             (* res.stream.state *)

Inductive Event :=
| setHeader (name value : list ascii)
| writeHead (status : N) (contentType : list ascii)
| end_ (body : Body)
| observed (handler : list ascii) (code : Code) (elapsed : N)
| memCache_get (key : list ascii)
| memCache_set (key value : list ascii)
| redis_get (key : list ascii)
| redis_set (key value : list ascii) (seconds : N)
| execute (target : list ascii)
| fetch (target : list ascii)
| routeRequest             (* the tunnel adapter takes the request over *)
| serve                    (* serve-static is called *)
| static_served.           (* serve-static answered by itself *)

Inductive Error :=
| RedisError
| RenderError
| FetchError
| RangeError.

Inductive result (A : Type) :=
| Ok (a : A)
| Throw (e : Error).
Arguments Ok {A} a.
Arguments Throw {A} e.

Record World := {
  clock : N;                       (* Date.now() *)
  calls : nat;                     (* awaited outside calls made so far *)
  memCache : LRU.t;
  redis : Redis.t;
  trace : list Event               (* oldest first *)
}.

Definition M (A : Type) : Type := World -> result A * World.

Definition ret {A} (a : A) : M A := fun w => (Ok a, w).

Definition bind {A B} (m : M A) (k : A -> M B) : M B :=
  fun w => match m w with
           | (Ok a, w') => k a w'
           | (Throw e, w') => (Throw e, w')
           end.

Definition throw {A} (e : Error) : M A := fun w => (Throw e, w).

(** [try { m } catch (e) { h e }] *)
Definition try_catch {A} (m : M A) (h : Error -> M A) : M A :=
  fun w => match m w with
           | (Ok a, w') => (Ok a, w')
           | (Throw e, w') => h e w'
           end.

Notation "'do' x <- m ; k" := (bind m (fun x => k))
  (at level 10, x name, m at level 100, k at level 200).
Notation "m ;; k" := (bind m (fun _ => k))
  (at level 100, k at level 200, right associativity).

Definition emit (e : Event) : M unit :=
  fun w => (Ok tt, {| clock := clock w; calls := calls w; memCache := memCache w;
                      redis := redis w; trace := trace w ++ [e] |}).

Definition Date_now : M N := fun w => (Ok (clock w), w).

(** An HTTP error as serve-static reports it. *)
Record HttpError := { statusCode : option N; stack : option (list ascii) }.

(** What [serve(req, res, callback)] does, with [fallthrough: false]:
    it answers by itself, or it calls the callback with an error. *)
Inductive StaticOutcome :=
| Served                             (* the file is sent; the callback is not called *)
| Failed (err : option HttpError).   (* the callback is called *)

(** What [fetch] resolves to: the [content-type] header and the outcome
    of [arrayBuffer()] ([None] when reading the body fails). *)
Record FetchResponse := {
  content_type : option (list ascii);
  arrayBuffer : option Buffer
}.

Record Request := {
  url : option (list ascii)          (* req.url *)
}.

(** What the source reads from [res]. *)
Record Response := {
  socket_encrypted : bool;
      (* res.stream.session.socket.encrypted *)
  httpMessage_accept_encoding : option (list ascii);
      (* res.stream.session.socket._httpMessage.headers['accept-encoding'] *)
  serverResponse : option (option (list ascii));
      (* res.socket.serverResponse, and its getHeader('accept-encoding') *)
  stream_responded : bool
      (* res.stream.responded, read after bare.routeRequest *)
}.

(** The collaborators: the platform's pure functions, and the outcome of
    every call that leaves the process.  Outcomes are indexed by the
    number of the awaited call, so that two calls may differ. *)
Record Env := {
  searchParams_get : list ascii -> list ascii -> option (list ascii);
      (* new URL(href).searchParams.get(name) *)
  decoder_of_label : list ascii -> option (Buffer -> list ascii);
      (* new TextDecoder(label), for labels other than 'utf-8' *)
  utf8_decode : Buffer -> list ascii;
  utf8_encode : list ascii -> Buffer;
  gzip : list ascii -> Buffer;       (* zlib.gzip *)
  gunzip : Buffer -> option Buffer;  (* zlib.gunzip *)
  shouldRoute : Request -> bool;     (* bare.shouldRoute *)
  serveStatic : Request -> StaticOutcome;
  register_contentType : list ascii; (* client.register.contentType *)
  latency : nat -> N;                (* how long the n-th awaited call takes *)
  redis_fails : nat -> bool;         (* the n-th call, made to redis, is rejected *)
  page_content : nat -> list ascii -> option (list ascii);
      (* page.goto(url) then page.content(); None when the load fails *)
  upstream : nat -> list ascii -> option FetchResponse
      (* fetch(target); None when it rejects *)
}.


(** Template literal [`${n}`] of a non-negative integer. *)
Definition decimal (n : N) : list ascii :=
  lit (NilEmpty.string_of_uint (N.to_uint n)).

Section Operations.

Context (E : Env).

(** [await]: the call is numbered and the clock moves on. *)
Definition await : M nat := fun w =>
  (Ok (calls w),
   {| clock := clock w + latency E (calls w); calls := S (calls w);
      memCache := memCache w; redis := redis w; trace := trace w |}).

(** [memCache.get(key)] *)
Definition memCache_get_ (key : list ascii) : M (option (list ascii)) :=
  emit (memCache_get key) ;;
  fun w => let '(v, c) := LRU.get (clock w) key (memCache w) in
           (Ok v, {| clock := clock w; calls := calls w; memCache := c;
                     redis := redis w; trace := trace w |}).

(** [memCache.set(key, value)] *)
Definition memCache_set_ (key value : list ascii) : M unit :=
  emit (memCache_set key value) ;;
  fun w => (Ok tt, {| clock := clock w; calls := calls w;
                      memCache := LRU.set (clock w) key value (memCache w);
                      redis := redis w; trace := trace w |}).

(** [await redis.get(key)] *)
Definition redis_get_ (key : list ascii) : M (option (list ascii)) :=
  emit (redis_get key) ;;
  do v <- (fun w => if redis_fails E (calls w) then (Throw RedisError, w)
                    else (Ok (Redis.get (clock w) key (redis w)), w)) ;
  await ;;
  ret v.

(** [await redis.set(key, value, 'EX', seconds)]; Redis refuses an
    expiry of zero. *)
Definition redis_set_ (key value : list ascii) (seconds : N) : M unit :=
  emit (redis_set key value seconds) ;;
  (fun w => if redis_fails E (calls w) || (seconds =? 0) then (Throw RedisError, w)
            else (Ok tt, {| clock := clock w; calls := calls w; memCache := memCache w;
                            redis := Redis.set (clock w) key value seconds (redis w);
                            trace := trace w |})) ;;
  await ;;
  ret tt.

(** [memCache.get(key) || await redis.get(key)] *)
Definition cache_get (key : list ascii) : M (option (list ascii)) :=
  do a <- memCache_get_ key ;
  if JS.truthy a then ret a else redis_get_ key.

(** [memCache.set(key, value); await redis.set(key, value, 'EX', seconds)] *)
Definition cache_set (key value : list ascii) (seconds : N) : M unit :=
  memCache_set_ key value ;;
  redis_set_ key value seconds.

(** [await puppeteerCluster.execute(target)] runs the function that
    [initCluster] registers with [puppeteerCluster.task]: the page is
    loaded and its serialisation has its charset declaration
    rewritten. *)
Definition puppeteerCluster_execute (target : list ascii) : M (list ascii) :=
  emit (execute target) ;;
  do n <- await ;
  match page_content E n target with
  | Some html => ret (rewrite_meta html)
  | None => throw RenderError
  end.

(** [await fetch(target, ...)] *)
Definition fetch_ (target : list ascii) : M FetchResponse :=
  emit (fetch target) ;;
  do n <- await ;
  match upstream E n target with
  | Some rsp => ret rsp
  | None => throw FetchError
  end.

(** [await rsp.arrayBuffer()] *)
Definition arrayBuffer_ (rsp : FetchResponse) : M Buffer :=
  await ;;
  match arrayBuffer rsp with
  | Some buf => ret buf
  | None => throw FetchError
  end.

(** [new TextDecoder(label)]: the decoder of a supported label; [None]
    stands for the RangeError raised for an unknown one.  UTF-8 is
    always supported. *)
Definition TextDecoder (label : list ascii) : option (Buffer -> list ascii) :=
  if bool_decide (label = lit "utf-8") then Some (utf8_decode E)
  else decoder_of_label E label.

(** [new TextDecoder(label).decode(buf)]: decoding itself replaces
    what is malformed and does not throw. *)
Definition TextDecoder_decode (label : list ascii) (buf : Buffer) : M (list ascii) :=
  match TextDecoder label with
  | Some dec => ret (dec buf)
  | None => throw RangeError
  end.

(** [m = (rsp.headers.get('content-type') || '').match(/charset=([^;]+)/i)] *)
Definition charset_match (rsp : FetchResponse) : option (list ascii) :=
  Regex.group re_charset 8 (default [] (JS.or_else (content_type rsp) (Some []))).

(** [cs = m ? m[1].toLowerCase() : 'utf-8'] *)
Definition charset_of (rsp : FetchResponse) : list ascii :=
  match charset_match rsp with
  | Some g => JS.toLowerCase g
  | None => lit "utf-8"
  end.

(** [try { text = new TextDecoder(cs).decode(buf); }
     catch { text = new TextDecoder('utf-8').decode(buf); }] *)
Definition decode (rsp : FetchResponse) (buf : Buffer) : M (list ascii) :=
  let cs := charset_of rsp in
  try_catch (TextDecoder_decode cs buf)
            (fun _ => TextDecoder_decode (lit "utf-8") buf).

End Operations.

(** [err?.statusCode || 404] *)
Definition static_code (err : option HttpError) : N :=
  match err ≫= statusCode with
  | Some n => if n =? 0 then 404 else n
  | None => 404
  end.

(** [err?.stack || 'Not Found'] *)
Definition static_body (err : option HttpError) : list ascii :=
  match err ≫= stack with
  | Some (c :: s) => c :: s
  | _ => lit "Not Found"
  end.

(** [const observe = code => { httpCounter.inc({ handler, code });
    httpLatency.labels(handler).observe((Date.now() - start) / 1000); }]:
    one observation, with the elapsed time in milliseconds. *)
Definition observe (handler : list ascii) (start : N) (code : Code) : M unit :=
  do now <- Date_now ;
  emit (observed handler code (now - start)).

(* ================================================================= *)
(** ** [index.js]: the clustered HTTP/2 server *)

Module Index.
Section Handler.

Context (E : Env).

(** [function send(res, data, type, maxAge = 60)]; the callback given
    to [zlib.gzip] is run where it is registered. *)
Definition send (res : Response) (data type_ : list ascii) (maxAge : N) : M unit :=
  emit (setHeader (lit "Content-Type") type_) ;;
  emit (setHeader (lit "Cache-Control") (lit "public, max-age=" ++ decimal maxAge)) ;;
  let accept :=
    if socket_encrypted res then httpMessage_accept_encoding res else Some [] in
  if JS.truthy accept && JS.includes (default [] accept) (lit "gzip") then
    emit (setHeader (lit "Content-Encoding") (lit "gzip")) ;;
    emit (end_ (Bytes (gzip E data)))
  else
    emit (end_ (Text data)).

(** The label [handler] of the request. *)
Definition handler_of (req : Request) : list ascii :=
  let url := default [] (url req) in
  if JS.startsWith url (lit "/puppeteer?") then lit "puppeteer"
  else if JS.startsWith url (lit "/proxy/") then lit "decode"
  else if shouldRoute E req then lit "bare"
  else lit "static".

(** [const target = 'https://' + url.replace(/^\/proxy\//, '')] *)
Definition proxy_target (url : list ascii) : list ascii :=
  lit "https://" ++ Regex.replace re_proxy [] url.

(** 1) the Puppeteer branch *)
Definition puppeteer (res : Response) (url : list ascii) (observe : Code -> M unit)
  : M unit :=
  let target := searchParams_get E (lit "http://dummy" ++ url) (lit "url") in
  if negb (JS.truthy target) then
    emit (writeHead 400 (lit "text/plain; charset=utf-8")) ;;
    observe (Status 400) ;;
    emit (end_ (Text (lit "Missing url")))
  else
    let target := default [] target in
    let key := lit "pp:" ++ target in
    do html <- cache_get E key ;
    do html <- (if negb (JS.truthy html) then
                  do html <- puppeteerCluster_execute E target ;
                  cache_set E key html 30 ;;
                  ret html
                else ret (default [] html)) ;
    send res html (lit "text/html; charset=utf-8") 30 ;;
    observe (Status 200).

(** 2) the decode proxy *)
Definition proxy (res : Response) (url : list ascii) (observe : Code -> M unit)
  : M unit :=
  let target := proxy_target url in
  let key := lit "px:" ++ target in
  do text <- cache_get E key ;
  do text <- (if negb (JS.truthy text) then
                do rsp <- fetch_ E target ;
                do buf <- arrayBuffer_ E rsp ;
                do text <- decode E rsp buf ;
                let text := rewrite_meta text in
                cache_set E key text 60 ;;
                ret text
              else ret (default [] text)) ;
  send res text (lit "text/html; charset=utf-8") 60 ;;
  observe (Status 200).

(** The request handler given to [http2.createSecureServer]; the
    callback given to [serve] is run where it is registered. *)
Definition handler (req : Request) (res : Response) : M unit :=
  do start <- Date_now ;
  let url := default [] (url req) in
  let observe := observe (handler_of req) start in
  try_catch
    (if JS.startsWith url (lit "/puppeteer?") then puppeteer res url observe
     else if JS.startsWith url (lit "/proxy/") then proxy res url observe
     else if shouldRoute E req then
       emit routeRequest ;;
       observe (if stream_responded res then StreamState else Status 200)
     else
       emit serve ;;
       match serveStatic E req with
       | Served => emit static_served
       | Failed err =>
           let code := static_code err in
           emit (writeHead code (lit "text/plain; charset=utf-8")) ;;
           emit (end_ (Text (static_body err))) ;;
           observe (Status code)
       end)
    (fun e =>
       emit (writeHead 500 (lit "text/plain; charset=utf-8")) ;;
       emit (end_ (Text (lit "Internal Error"))) ;;
       observe (Status 500)).

(** [server.on('request', ...)]: the metrics listener. *)
Definition metrics_listener (req : Request) (res : Response) : M unit :=
  if bool_decide (url req = Some (lit "/metrics")) then
    emit (setHeader (lit "Content-Type") (register_contentType E)) ;;
    emit (end_ Exposition)
  else ret tt.

(** A request goes through both listeners of the server. *)
Definition on_request (req : Request) (res : Response) : M unit :=
  handler req res ;;
  metrics_listener req res.

End Handler.
End Index.

(* ================================================================= *)
(** ** [server.js]: [createBareHandler] *)

Module Server.
Section Handler.

Context (E : Env).

(** [function send(res, data, contentType, maxAge = 60)] *)
Definition send (res : Response) (data contentType : list ascii) (maxAge : N) : M unit :=
  emit (setHeader (lit "Content-Type") contentType) ;;
  emit (setHeader (lit "Cache-Control") (lit "public, max-age=" ++ decimal maxAge)) ;;
  let accepts :=
    match serverResponse res with
    | Some getHeader => default [] (JS.or_else getHeader (Some []))
    | None => []
    end in
  if JS.includes accepts (lit "gzip") then
    emit (setHeader (lit "Content-Encoding") (lit "gzip")) ;;
    emit (end_ (Bytes (gzip E data)))
  else
    emit (end_ (Text data)).

(** The label [handler] of the request. *)
Definition handler_of (req : Request) : list ascii :=
  let url := default [] (url req) in
  if JS.startsWith url (lit "/puppeteer?") then lit "puppeteer"
  else if JS.startsWith url (lit "/proxy/") then lit "decode"
  else if shouldRoute E req then lit "bare"
  else if bool_decide (url = lit "/metrics") then lit "metrics"
  else lit "static".

(** [const target = 'https://' + url.slice(7)] *)
Definition proxy_target (url : list ascii) : list ascii :=
  lit "https://" ++ JS.slice 7 url.

Definition puppeteer (res : Response) (url : list ascii) (observe : Code -> M unit)
  : M unit :=
  let target := searchParams_get E (lit "http://x" ++ url) (lit "url") in
  if negb (JS.truthy target) then
    emit (writeHead 400 (lit "text/plain; charset=utf-8")) ;;
    emit (end_ (Text (lit "Missing url"))) ;;
    observe (Status 400)
  else
    let target := default [] target in
    let key := lit "pp:" ++ target in
    do html <- cache_get E key ;
    do html <- (if negb (JS.truthy html) then
                  do html <- puppeteerCluster_execute E target ;
                  cache_set E key html 30 ;;
                  ret html
                else ret (default [] html)) ;
    send res html (lit "text/html; charset=utf-8") 30 ;;
    observe (Status 200).

Definition proxy (res : Response) (url : list ascii) (observe : Code -> M unit)
  : M unit :=
  let target := proxy_target url in
  let key := lit "px:" ++ target in
  do text <- cache_get E key ;
  do text <- (if negb (JS.truthy text) then
                do rsp <- fetch_ E target ;
                do buf <- arrayBuffer_ E rsp ;
                do text <- decode E rsp buf ;
                let text := rewrite_meta text in
                cache_set E key text 60 ;;
                ret text
              else ret (default [] text)) ;
  send res text (lit "text/html; charset=utf-8") 60 ;;
  observe (Status 200).

(** [export async function createBareHandler(req, res)] *)
Definition createBareHandler (req : Request) (res : Response) : M unit :=
  do start <- Date_now ;
  let url := default [] (url req) in
  let handler := handler_of req in
  let observe := observe handler start in
  if bool_decide (handler = lit "metrics") then
    emit (setHeader (lit "Content-Type") (register_contentType E)) ;;
    emit (end_ Exposition) ;;
    observe (Status 200)
  else if bool_decide (handler = lit "puppeteer") then puppeteer res url observe
  else if bool_decide (handler = lit "decode") then proxy res url observe
  else if bool_decide (handler = lit "bare") then
    emit routeRequest ;;
    observe (Status 200)
  else
    emit serve ;;
    match serveStatic E req with
    | Served => emit static_served
    | Failed err =>
        let code := static_code err in
        emit (writeHead code (lit "text/plain; charset=utf-8")) ;;
        emit (end_ (Text (static_body err))) ;;
        observe (Status code)
    end.

End Handler.
End Server.

(* ================================================================= *)
(** ** The shape shared by the four cached branches

    The render branch and the decode proxy of both entry points run the
    same steps around what produces the document on a miss and what
    sends it; the lemmas [*_path] below relate each branch to this
    shape. *)

(** [let x = memCache.get(key) || await redis.get(key);
     if (!x) { x = produce; memCache.set(key, x);
               await redis.set(key, x, 'EX', seconds); }
     send(res, x, ...); observe(200);] *)
Definition cached_response (E : Env) (key : list ascii) (seconds : N)
    (produce : M (list ascii)) (send_ : list ascii -> M unit)
    (observe_ : Code -> M unit) : M unit :=
  do x <- cache_get E key ;
  do x <- (if negb (JS.truthy x) then
             do y <- produce ;
             cache_set E key y seconds ;;
             ret y
           else ret (default [] x)) ;
  send_ x ;;
  observe_ (Status 200).

(** What the decode proxy does on a miss: fetch, read, decode, rewrite. *)
Definition fetch_text (E : Env) (target : list ascii) : M (list ascii) :=
  do rsp <- fetch_ E target ;
  do buf <- arrayBuffer_ E rsp ;
  do text <- decode E rsp buf ;
  ret (rewrite_meta text).

(** The [catch] block of [index.js]. *)
Definition internal_error (observe_ : Code -> M unit) : M unit :=
  emit (writeHead 500 (lit "text/plain; charset=utf-8")) ;;
  emit (end_ (Text (lit "Internal Error"))) ;;
  observe_ (Status 500).

(** [produce] makes the outside call [call] and touches neither cache:
    whatever its result, it leaves the world later by some time and
    some awaited calls, with [call] added to the trace. *)
Definition produces (produce : M (list ascii)) (call : Event) : Prop :=
  forall w, exists r dt n,
    produce w = (r, {| clock := clock w + dt; calls := (calls w + n)%nat;
                       memCache := memCache w; redis := redis w;
                       trace := trace w ++ [call] |}).

(* ================================================================= *)
(** ** Reading a trace *)

(** A response is finished by [res.end], or by the collaborator the
    request was handed to. *)
Definition is_response (e : Event) : bool :=
  match e with
  | end_ _ | routeRequest | static_served => true
  | _ => false
  end.

Definition is_observation (e : Event) : bool :=
  match e with
  | observed _ _ _ => true
  | _ => false
  end.

(** The render backend and the outbound fetch. *)
Definition is_backend_call (e : Event) : bool :=
  match e with
  | execute _ | fetch _ => true
  | _ => false
  end.

(** What is written to the client: status line, headers and body. *)
Definition is_output (e : Event) : bool :=
  match e with
  | setHeader _ _ | writeHead _ _ | end_ _ => true
  | _ => false
  end.

Definition count (f : Event -> bool) (tr : list Event) : nat :=
  length (List.filter f tr).

Definition output (tr : list Event) : list Event := List.filter is_output tr.

(** The codes observed, with the handler label of each. *)
Definition observations (tr : list Event) : list (list ascii * Code) :=
  omap (fun e => match e with
                 | observed h c _ => Some (h, c)
                 | _ => None
                 end) tr.




(** A request starts with an empty trace of its own. *)
Definition fresh (w : World) : World :=
  {| clock := clock w; calls := calls w; memCache := memCache w;
     redis := redis w; trace := [] |}.

(** Time passes between two requests. *)
Definition idle (gap : N) (w : World) : World :=
  {| clock := clock w + gap; calls := calls w; memCache := memCache w;
     redis := redis w; trace := trace w |}.

(** The world of a process that has just started. *)
Definition boot : World :=
  {| clock := 0; calls := 0; memCache := LRU.empty; redis := ∅; trace := [] |}.

(** Two requests in succession, [gap] milliseconds apart: the final
    world and the trace of each. *)
Definition twice (h : M unit) (gap : N) (w : World)
  : result unit * list Event * (result unit * list Event) * World :=
  let '(r1, w1) := h (fresh w) in
  let '(r2, w2) := h (fresh (idle gap w1)) in
  ((r1, trace w1), (r2, trace w2), w2).

(** What [send] writes to the response. *)
Definition sent_by_index (E : Env) (res : Response) (data type_ : list ascii)
    (maxAge : N) : list Event :=
  trace (snd (Index.send E res data type_ maxAge boot)).

Definition sent_by_server (E : Env) (res : Response) (data type_ : list ascii)
    (maxAge : N) : list Event :=
  trace (snd (Server.send E res data type_ maxAge boot)).


(** Both tiers hold the empty string, or nothing, under [key]: the
    state a stored empty result leaves. *)
Definition holds_empty (key : list ascii) (w : World) : Prop :=
  (forall e, LRU.find key (memCache w) = Some e -> LRU.value e = []) /\
  (forall v d, redis w !! key = Some (v, d) -> v = []).

(** [w] with the events [tr] appended to its trace. *)
Definition extend (w : World) (tr : list Event) : World :=
  {| clock := clock w; calls := calls w; memCache := memCache w;
     redis := redis w; trace := trace w ++ tr |}.

(* ================================================================= *)
(** ** A small platform to run the handlers on

    Bytes below 0x80 are themselves in UTF-8; the query string is read
    up to its first parameter; compression is a two-byte frame. *)

Module Demo.

Definition ascii_decode (b : Buffer) : list ascii := map ascii_of_byte b.
Definition ascii_encode (s : list ascii) : Buffer := map byte_of_ascii s.

Definition frame (s : list ascii) : Buffer :=
  Byte.x1f :: Byte.x8b :: ascii_encode s.

Definition unframe (b : Buffer) : option Buffer :=
  match b with
  | Byte.x1f :: Byte.x8b :: b' => Some b'
  | _ => None
  end.

Fixpoint query (href : list ascii) : option (list ascii) :=
  match href with
  | [] => None
  | c :: s => if Ascii.eqb c "?" then Some s else query s
  end.

Fixpoint until_amp (s : list ascii) : list ascii :=
  match s with
  | [] => []
  | c :: s' => if Ascii.eqb c "&" then [] else c :: until_amp s'
  end.

Definition first_param (href name : list ascii) : option (list ascii) :=
  match query href with
  | Some q =>
      if JS.startsWith q (name ++ lit "=")
      then Some (until_amp (drop (length name + 1) q))
      else None
  | None => None
  end.

Definition labels (label : list ascii) : option (Buffer -> list ascii) :=
  if bool_decide (label = lit "iso-8859-1") then Some (map ascii_of_byte) else None.

Definition bare_route (req : Request) : bool :=
  JS.startsWith (default [] (url req)) (lit "/bare/").

Definition not_found : HttpError :=
  {| statusCode := Some 404; stack := Some (lit "NotFoundError: Not Found") |}.

(** [static/index.html] is the only file. *)
Definition files (req : Request) : StaticOutcome :=
  if bool_decide (url req = Some (lit "/index.html")) then Served
  else Failed (Some not_found).

(** The platform, over a render backend and an upstream. *)
Definition env (pages : nat -> list ascii -> option (list ascii))
    (up : nat -> list ascii -> option FetchResponse) : Env :=
  {| searchParams_get := first_param;
     decoder_of_label := labels;
     utf8_decode := ascii_decode;
     utf8_encode := ascii_encode;
     gzip := frame;
     gunzip := unframe;
     shouldRoute := bare_route;
     serveStatic := files;
     register_contentType := lit "text/plain; version=0.0.4; charset=utf-8";
     latency := fun _ => 5;
     redis_fails := fun _ => false;
     page_content := pages;
     upstream := up |}.

(** The same platform with Redis rejecting its [n]-th awaited call. *)
Definition flaky (n : nat) (E : Env) : Env :=
  {| searchParams_get := searchParams_get E;
     decoder_of_label := decoder_of_label E;
     utf8_decode := utf8_decode E;
     utf8_encode := utf8_encode E;
     gzip := gzip E;
     gunzip := gunzip E;
     shouldRoute := shouldRoute E;
     serveStatic := serveStatic E;
     register_contentType := register_contentType E;
     latency := latency E;
     redis_fails := fun k => bool_decide (k = n);
     page_content := page_content E;
     upstream := upstream E |}.

(** Every page renders to the same document. *)
Definition page (n : nat) (target : list ascii) : option (list ascii) :=
  Some (lit "<html><head><meta charset=euc-jp></head><body>hi</body></html>").

(** The upstream answers with a body and its content type. *)
Definition origin (ct : option (list ascii)) (body : Buffer)
    (n : nat) (target : list ascii) : option FetchResponse :=
  Some {| content_type := ct; arrayBuffer := Some body |}.

(** The backend and the upstream are out of reach. *)
Definition down {A} (n : nat) (target : list ascii) : option A := None.

(** A client that reached the server over TLS and accepts gzip. *)
Definition tls_gzip : Response :=
  {| socket_encrypted := true;
     httpMessage_accept_encoding := Some (lit "gzip, deflate, br");
     serverResponse := Some (Some (lit "gzip, deflate, br"));
     stream_responded := false |}.


(** A client that accepts no compression. *)
Definition identity : Response :=
  {| socket_encrypted := true;
     httpMessage_accept_encoding := None;
     serverResponse := Some None;
     stream_responded := false |}.

Definition GET (u : string) : Request := {| url := Some (lit u) |}.

End Demo.

(* ================================================================= *)
(** ** What the backends hand on *)

(** [y] is what the render task returns for some load of the page
    [t]: the serialisation of the page, its charset declaration
    rewritten. *)
Definition rendered (E : Env) (t y : list ascii) : Prop :=
  exists n html, page_content E n t = Some html /\ y = rewrite_meta html.

(** [y] is what the decode proxy makes of some answer of the upstream
    to [target]: the body, decoded and its charset declaration
    rewritten. *)
Definition proxied (E : Env) (target y : list ascii) : Prop :=
  exists n rsp buf w text,
    upstream E n target = Some rsp /\ arrayBuffer rsp = Some buf /\
    decode E rsp buf w = (Ok text, w) /\ y = rewrite_meta text.

(* ================================================================= *)
(** ** The four cached branches, side by side

    A property of the cached branches is stated once, over a [Branch],
    and then holds for the render branch and the decode proxy of both
    entry points. *)

Record Branch := {
  entry : M unit;                     (* the entry point, on the request *)
  guarded : bool;                     (* [index.js]: inside [try] *)
  cache_key : list ascii;
  handler_label : list ascii;
  remote_ttl : N;                     (* the seconds given to [redis.set] *)
  backend : Event;                    (* the call made on a miss *)
  sends : list ascii -> list Event;   (* what [send] writes for a document *)
  document : list ascii -> Prop       (* what the backend can hand on *)
}.

Definition index_render (E : Env) (req : Request) (res : Response)
    (t : list ascii) : Branch :=
  {| entry := Index.on_request E req res; guarded := true;
     cache_key := lit "pp:" ++ t; handler_label := lit "puppeteer";
     remote_ttl := 30; backend := execute t;
     sends := fun x => sent_by_index E res x (lit "text/html; charset=utf-8") 30;
     document := rendered E t |}.

Definition server_render (E : Env) (req : Request) (res : Response)
    (t : list ascii) : Branch :=
  {| entry := Server.createBareHandler E req res; guarded := false;
     cache_key := lit "pp:" ++ t; handler_label := lit "puppeteer";
     remote_ttl := 30; backend := execute t;
     sends := fun x => sent_by_server E res x (lit "text/html; charset=utf-8") 30;
     document := rendered E t |}.

Definition index_proxy (E : Env) (req : Request) (res : Response)
    (u : list ascii) : Branch :=
  {| entry := Index.on_request E req res; guarded := true;
     cache_key := lit "px:" ++ Index.proxy_target u; handler_label := lit "decode";
     remote_ttl := 60; backend := fetch (Index.proxy_target u);
     sends := fun x => sent_by_index E res x (lit "text/html; charset=utf-8") 60;
     document := proxied E (Index.proxy_target u) |}.

Definition server_proxy (E : Env) (req : Request) (res : Response)
    (u : list ascii) : Branch :=
  {| entry := Server.createBareHandler E req res; guarded := false;
     cache_key := lit "px:" ++ Server.proxy_target u; handler_label := lit "decode";
     remote_ttl := 60; backend := fetch (Server.proxy_target u);
     sends := fun x => sent_by_server E res x (lit "text/html; charset=utf-8") 60;
     document := proxied E (Server.proxy_target u) |}.

(** [P] holds of each cached branch that a request for the path [u] can
    take: the render branch when [u] begins with ['/puppeteer?'] and
    carries the target [t], the decode proxy when it begins with
    ['/proxy/']. *)
Definition on_cached_branches (E : Env) (req : Request) (res : Response)
    (u : list ascii) (P : Branch -> Prop) : Prop :=
  (forall t,
     JS.startsWith u (lit "/puppeteer?") = true -> t <> [] ->
     (searchParams_get E (lit "http://dummy" ++ u) (lit "url") = Some t ->
      P (index_render E req res t)) /\
     (searchParams_get E (lit "http://x" ++ u) (lit "url") = Some t ->
      P (server_render E req res t))) /\
  (JS.startsWith u (lit "/proxy/") = true ->
   P (index_proxy E req res u) /\ P (server_proxy E req res u)).

(** The shape of a cached branch of [server.js], and of [index.js]. *)
Definition plain_shape (E : Env) (key : list ascii) (seconds : N)
    (produce : M (list ascii)) (send_ : list ascii -> M unit)
    (label : list ascii) : M unit :=
  do start <- Date_now ;
  cached_response E key seconds produce send_ (observe label start).

Definition guarded_shape (E : Env) (key : list ascii) (seconds : N)
    (produce : M (list ascii)) (send_ : list ascii -> M unit)
    (label : list ascii) : M unit :=
  do start <- Date_now ;
  try_catch (cached_response E key seconds produce send_ (observe label start))
            (fun _ => internal_error (observe label start)) ;;
  ret tt.

(** What a request on the cached branch [b] may do, given the trace
    [tr] it leaves: it asks and writes the two tiers under its own key,
    Redis with the branch's expiry and only what the local tier was
    given; the one backend it calls is its own; it observes under its
    own label, a 200 or inside [try] a 500; it never hands the request
    to the tunnel adapter or to serve-static, and never writes the
    metrics exposition. *)
Definition own_event (b : Branch) (tr : list Event) (e : Event) : Prop :=
  match e with
  | memCache_get k | redis_get k | memCache_set k _ => k = cache_key b
  | redis_set k v s =>
      k = cache_key b /\ s = remote_ttl b /\ memCache_set k v ∈ tr
  | execute _ | fetch _ => e = backend b
  | observed h c _ =>
      h = handler_label b /\
      (c = Status 200 \/ (c = Status 500 /\ guarded b = true))
  | writeHead c _ => c = 500 /\ guarded b = true
  | routeRequest | serve | static_served | end_ Exposition => False
  | setHeader _ _ | end_ _ => True
  end.

(* ================================================================= *)
(** * Properties *)

(** ** Strings *)

Lemma startsWith_app (p rest : list ascii) : JS.startsWith (p ++ rest) p = true.
Proof.
  induction p as [|c p IH]; simpl; [done|].
  by rewrite Ascii.eqb_refl, IH.
Qed.

Lemma startsWith_inv (p s : list ascii) :
  JS.startsWith s p = true -> exists rest, s = p ++ rest.
Proof.
  revert s. induction p as [|c p IH]; intros s H.
  - by exists s.
  - destruct s as [|d s]; simpl in H; [done|].
    apply andb_prop in H as [Hc Hs]. apply Ascii.eqb_eq in Hc as ->.
    destruct (IH _ Hs) as [rest ->]. by exists rest.
Qed.

(** ** The decode-proxy target *)

(** C9. For a request path that begins with ['/proxy/'], [index.js]
    (which removes the match of [/^\/proxy\//]) and [server.js] (which
    drops seven characters) derive the same target: ['https://']
    followed by the path without the prefix. *)
Theorem proxy_target_agree (url : list ascii) :
  JS.startsWith url (lit "/proxy/") = true ->
  Index.proxy_target url = Server.proxy_target url /\
  exists rest, url = lit "/proxy/" ++ rest /\
               Index.proxy_target url = lit "https://" ++ rest.
Proof.
  intros H. apply startsWith_inv in H as [rest ->].
  split; [reflexivity|]. exists rest. split; reflexivity.
Qed.

(** C9 on the path ['/proxy/example.com/page']. *)
Lemma proxy_target_agree_witness :
  JS.startsWith (lit "/proxy/example.com/page") (lit "/proxy/") = true /\
  Index.proxy_target (lit "/proxy/example.com/page") = lit "https://example.com/page" /\
  Server.proxy_target (lit "/proxy/example.com/page") = lit "https://example.com/page".
Proof.
  split; [reflexivity|].
  destruct (proxy_target_agree (lit "/proxy/example.com/page") eq_refl)
    as [Heq _].
  split; [reflexivity | rewrite <- Heq; reflexivity].
Defined.

(** ** The render pipeline without a target *)

Lemma puppeteer_not_metrics (u : list ascii) :
  JS.startsWith u (lit "/puppeteer?") = true -> u <> lit "/metrics".
Proof. intros H ->. discriminate H. Qed.

(** Tests on literal labels and paths are settled by computation. *)
Ltac labels :=
  repeat first
    [ rewrite bool_decide_eq_true_2 by reflexivity
    | rewrite bool_decide_eq_false_2
        by (let X := fresh in intro X; vm_compute in X; discriminate X) ].

(** Running the monad on a world. *)
Ltac step :=
  cbv beta iota delta
    [bind try_catch throw observe Date_now emit ret extend fresh idle];
  simpl.

(** C1. A request to the render pipeline whose [url] parameter is
    missing or empty is answered with status 400 and the text
    ['Missing url'], one observation with code 400 is recorded, and
    nothing else happens: the trace holds no call to [memCache], to
    [redis] or to the render backend, and both caches and the call
    counter are as they were.  This holds for both entry points. *)
Theorem missing_url_400 (E : Env) (req : Request) (res : Response)
    (w : World) (u : list ascii) :
  url req = Some u ->
  JS.startsWith u (lit "/puppeteer?") = true ->
  (JS.truthy (searchParams_get E (lit "http://dummy" ++ u) (lit "url")) = false ->
   Index.on_request E req res w =
     (Ok tt, extend w [writeHead 400 (lit "text/plain; charset=utf-8");
                       observed (lit "puppeteer") (Status 400) 0;
                       end_ (Text (lit "Missing url"))])) /\
  (JS.truthy (searchParams_get E (lit "http://x" ++ u) (lit "url")) = false ->
   Server.createBareHandler E req res w =
     (Ok tt, extend w [writeHead 400 (lit "text/plain; charset=utf-8");
                       end_ (Text (lit "Missing url"));
                       observed (lit "puppeteer") (Status 400) 0])).
Proof.
  intros Hu Hp. pose proof (puppeteer_not_metrics u Hp) as Hm. split; intros Ht.
  - unfold Index.on_request, Index.handler, Index.metrics_listener,
      Index.handler_of, Index.puppeteer.
    rewrite Hu. simpl default. rewrite Hp, Ht.
    rewrite bool_decide_eq_false_2 by congruence.
    step. rewrite N.sub_diag, <- !app_assoc. reflexivity.
  - unfold Server.createBareHandler, Server.handler_of, Server.puppeteer.
    rewrite Hu. simpl default. rewrite Hp, Ht. labels. step.
    rewrite N.sub_diag, <- !app_assoc. reflexivity.
Qed.

(** C1 on an empty and on a missing [url] parameter. *)
Lemma missing_url_400_witness :
  Index.on_request (Demo.env Demo.page Demo.down) (Demo.GET "/puppeteer?url=")
    Demo.tls_gzip boot =
  (Ok tt, extend boot [writeHead 400 (lit "text/plain; charset=utf-8");
                       observed (lit "puppeteer") (Status 400) 0;
                       end_ (Text (lit "Missing url"))]) /\
  Server.createBareHandler (Demo.env Demo.page Demo.down) (Demo.GET "/puppeteer?")
    Demo.tls_gzip boot =
  (Ok tt, extend boot [writeHead 400 (lit "text/plain; charset=utf-8");
                       end_ (Text (lit "Missing url"));
                       observed (lit "puppeteer") (Status 400) 0]).
Proof.
  split.
  - apply (missing_url_400 (Demo.env Demo.page Demo.down)
             (Demo.GET "/puppeteer?url=") Demo.tls_gzip boot
             (lit "/puppeteer?url=")); reflexivity.
  - apply (missing_url_400 (Demo.env Demo.page Demo.down)
             (Demo.GET "/puppeteer?") Demo.tls_gzip boot
             (lit "/puppeteer?")); reflexivity.
Defined.

(** ** The cache tiers *)

Lemma LRU_find_set (now : N) (k v : list ascii) (c : LRU.t) :
  LRU.find k (LRU.set now k v c) =
  Some {| LRU.key := k; LRU.value := v; LRU.start := now |}.
Proof.
  unfold LRU.find, LRU.set, LRU.has_key. simpl.
  by rewrite bool_decide_eq_true_2.
Qed.


Lemma LRU_get_set_cases (now later : N) (k v : list ascii) (c : LRU.t) :
  fst (LRU.get later k (LRU.set now k v c)) = Some v \/
  fst (LRU.get later k (LRU.set now k v c)) = None.
Proof.
  unfold LRU.get. rewrite LRU_find_set. simpl.
  destruct (LRU.stale later _); simpl; auto.
Qed.

(** A key written to the remote tier reads back until its deadline. *)
Lemma Redis_get_set (now later : N) (k v : list ascii) (seconds : N) (db : Redis.t) :
  later <= now + seconds * 1000 ->
  Redis.get later k (Redis.set now k v seconds db) = Some v.
Proof.
  intros Hle. unfold Redis.get, Redis.set. rewrite lookup_insert_eq.
  destruct (N.leb_spec later (now + seconds * 1000)); [done|lia].
Qed.

(** What a completed [cache_set] leaves behind. *)
Lemma cache_set_inv (E : Env) (k v : list ascii) (seconds : N) (w w1 : World) :
  cache_set E k v seconds w = (Ok tt, w1) ->
  redis_fails E (calls w) = false /\ seconds <> 0 /\
  w1 = {| clock := clock w + latency E (calls w);
          calls := S (calls w);
          memCache := LRU.set (clock w) k v (memCache w);
          redis := Redis.set (clock w) k v seconds (redis w);
          trace := trace w ++ [memCache_set k v; redis_set k v seconds] |}.
Proof.
  unfold cache_set, memCache_set_, redis_set_, await. step.
  destruct (redis_fails E (calls w)); simpl; [discriminate|].
  destruct (N.eqb_spec seconds 0) as [->|Hne]; simpl; [discriminate|].
  intros [= <-]. rewrite <- app_assoc. done.
Qed.

(** C8. Once [set(k, v, ttl)] has completed, a [get(k)] made at once,
    or after any delay that stays within the caller's TTL, returns [v];
    the remote tier is assumed to answer if it is asked. *)
Theorem cache_round_trip (E : Env) (k v : list ascii) (seconds gap : N)
    (w w1 : World) :
  cache_set E k v seconds w = (Ok tt, w1) ->
  clock w1 + gap <= clock w + seconds * 1000 ->
  redis_fails E (calls w1) = false ->
  exists w2, cache_get E k (idle gap w1) = (Ok (Some v), w2).
Proof.
  intros Hset Hwin Hup.
  apply cache_set_inv in Hset as (_ & _ & ->). simpl in Hwin, Hup.
  unfold cache_get, memCache_get_, redis_get_, await. step.
  set (later := clock w + latency E (calls w) + gap).
  destruct (LRU.get later k (LRU.set (clock w) k v (memCache w))) as [a c] eqn:Hget.
  assert (Ha : a = Some v \/ a = None).
  { pose proof (LRU_get_set_cases (clock w) later k v (memCache w)) as H.
    by rewrite Hget in H. }
  assert (Hr : Redis.get later k (Redis.set (clock w) k v seconds (redis w)) = Some v).
  { apply Redis_get_set. unfold later. lia. }
  destruct Ha as [-> | ->]; [destruct v as [|c0 v]|]; simpl;
    rewrite ?Hup; simpl; rewrite ?Hr; eauto.
Qed.

(** C8 on a rendered page stored for thirty seconds. *)
Lemma cache_round_trip_witness :
  exists w2,
    cache_get (Demo.env Demo.page Demo.down) (lit "pp:https://example.com")
      (idle 0 (snd (cache_set (Demo.env Demo.page Demo.down)
                      (lit "pp:https://example.com") (lit "<html></html>") 30 boot))) =
    (Ok (Some (lit "<html></html>")), w2).
Proof.
  apply (cache_round_trip (Demo.env Demo.page Demo.down)
           (lit "pp:https://example.com") (lit "<html></html>") 30 0 boot).
  - reflexivity.
  - vm_compute. discriminate.
  - reflexivity.
Defined.

(** ** Charset normalisation: decoding *)


Example charset_declared :
  charset_of {| content_type := Some (lit "text/html; Charset=Shift_JIS");
                arrayBuffer := None |} = lit "shift_jis".
Proof. reflexivity. Qed.

Example charset_up_to_semicolon :
  charset_of {| content_type := Some (lit "text/html;charset=EUC-JP; boundary=x");
                arrayBuffer := None |} = lit "euc-jp".
Proof. reflexivity. Qed.

Example charset_absent :
  charset_of {| content_type := Some (lit "text/html"); arrayBuffer := None |}
  = lit "utf-8" /\
  charset_of {| content_type := None; arrayBuffer := None |} = lit "utf-8".
Proof. split; reflexivity. Qed.



(** ** Compression *)





(** ** The hit test *)

(** The local tier, asked for a key it holds the empty string for (or
    nothing), gives a falsy value. *)
Lemma LRU_get_empty (now : N) (key : list ascii) (c : LRU.t) :
  (forall e, LRU.find key c = Some e -> LRU.value e = []) ->
  JS.truthy (fst (LRU.get now key c)) = false.
Proof.
  intros H. unfold LRU.get. destruct (LRU.find key c) as [e|]; [|done].
  rewrite (H e eq_refl). by destruct (LRU.stale now e).
Qed.

Lemma Redis_get_empty (now : N) (key : list ascii) (db : Redis.t) :
  (forall v d, db !! key = Some (v, d) -> v = []) ->
  JS.truthy (Redis.get now key db) = false.
Proof.
  intros H. unfold Redis.get. destruct (db !! key) as [[v d]|]; [|done].
  rewrite (H v d eq_refl). by destruct (now <=? d).
Qed.

Lemma cache_get_empty (E : Env) (key : list ascii) (w : World) :
  holds_empty key w ->
  redis_fails E (calls w) = false ->
  exists v c,
    JS.truthy v = false /\
    cache_get E key w =
      (Ok v, {| clock := clock w + latency E (calls w); calls := S (calls w);
                memCache := c; redis := redis w;
                trace := trace w ++ [memCache_get key; redis_get key] |}).
Proof.
  intros [Hm Hr] Hup. unfold cache_get, memCache_get_, redis_get_, await. step.
  pose proof (LRU_get_empty (clock w) key (memCache w) Hm) as Ha.
  destruct (LRU.get (clock w) key (memCache w)) as [a c]. simpl in Ha.
  rewrite Ha. simpl. rewrite Hup. simpl.
  exists (Redis.get (clock w) key (redis w)), c.
  split; [by apply Redis_get_empty|]. by rewrite <- app_assoc.
Qed.

(** ** Running the operations on a world *)

Lemma emit_run (e : Event) (w : World) : emit e w = (Ok tt, extend w [e]).
Proof. reflexivity. Qed.

Lemma observe_run (label : list ascii) (start : N) (code : Code) (w : World) :
  observe label start code w =
  (Ok tt, extend w [observed label code (clock w - start)]).
Proof. reflexivity. Qed.

Lemma execute_run (E : Env) (t : list ascii) (w : World) :
  puppeteerCluster_execute E t w =
  (match page_content E (calls w) t with
   | Some html => Ok (rewrite_meta html)
   | None => Throw RenderError
   end,
   {| clock := clock w + latency E (calls w); calls := S (calls w);
      memCache := memCache w; redis := redis w;
      trace := trace w ++ [execute t] |}).
Proof.
  unfold puppeteerCluster_execute, await. step.
  by destruct (page_content E (calls w) t).
Qed.

Lemma fetch_run (E : Env) (t : list ascii) (w : World) :
  fetch_ E t w =
  (match upstream E (calls w) t with
   | Some rsp => Ok rsp
   | None => Throw FetchError
   end,
   {| clock := clock w + latency E (calls w); calls := S (calls w);
      memCache := memCache w; redis := redis w;
      trace := trace w ++ [fetch t] |}).
Proof.
  unfold fetch_, await. step. by destruct (upstream E (calls w) t).
Qed.

Lemma arrayBuffer_run (E : Env) (rsp : FetchResponse) (w : World) :
  arrayBuffer_ E rsp w =
  (match arrayBuffer rsp with
   | Some buf => Ok buf
   | None => Throw FetchError
   end,
   {| clock := clock w + latency E (calls w); calls := S (calls w);
      memCache := memCache w; redis := redis w; trace := trace w |}).
Proof.
  unfold arrayBuffer_, await. step. by destruct (arrayBuffer rsp).
Qed.

Lemma cache_set_run (E : Env) (k v : list ascii) (seconds : N) (w : World) :
  cache_set E k v seconds w =
  if redis_fails E (calls w) || (seconds =? 0)
  then (Throw RedisError,
        {| clock := clock w; calls := calls w;
           memCache := LRU.set (clock w) k v (memCache w); redis := redis w;
           trace := trace w ++ [memCache_set k v; redis_set k v seconds] |})
  else (Ok tt,
        {| clock := clock w + latency E (calls w); calls := S (calls w);
           memCache := LRU.set (clock w) k v (memCache w);
           redis := Redis.set (clock w) k v seconds (redis w);
           trace := trace w ++ [memCache_set k v; redis_set k v seconds] |}).
Proof.
  unfold cache_set, memCache_set_, redis_set_, await. step.
  destruct (redis_fails E (calls w) || (seconds =? 0)); simpl;
    by rewrite <- app_assoc.
Qed.

(** [send] appends its headers and body to the trace, whatever the
    world it runs in. *)
Lemma Index_send_run (E : Env) (res : Response) (data type_ : list ascii)
    (maxAge : N) (w : World) :
  Index.send E res data type_ maxAge w =
  (Ok tt, extend w (sent_by_index E res data type_ maxAge)).
Proof.
  unfold sent_by_index, Index.send.
  destruct (JS.truthy _ && _); step; by rewrite <- !app_assoc.
Qed.

Lemma Server_send_run (E : Env) (res : Response) (data type_ : list ascii)
    (maxAge : N) (w : World) :
  Server.send E res data type_ maxAge w =
  (Ok tt, extend w (sent_by_server E res data type_ maxAge)).
Proof.
  unfold sent_by_server, Server.send.
  destruct (JS.includes _ _); step; by rewrite <- !app_assoc.
Qed.

(** What [send] appends is output, and nothing else. *)
Lemma Index_send_output (E : Env) (res : Response) (data type_ : list ascii)
    (maxAge : N) :
  let tr := sent_by_index E res data type_ maxAge in
  output tr = tr /\ count is_backend_call tr = 0%nat /\
  count is_response tr = 1%nat /\ observations tr = [].
Proof.
  unfold sent_by_index, Index.send. destruct (JS.truthy _ && _); step; done.
Qed.

Lemma Server_send_output (E : Env) (res : Response) (data type_ : list ascii)
    (maxAge : N) :
  let tr := sent_by_server E res data type_ maxAge in
  output tr = tr /\ count is_backend_call tr = 0%nat /\
  count is_response tr = 1%nat /\ observations tr = [].
Proof.
  unfold sent_by_server, Server.send. destruct (JS.includes _ _); step; done.
Qed.

(** Symbolic execution of a handler. *)
Ltac run :=
  repeat progress
    (cbv beta iota delta [bind try_catch ret throw Date_now];
     cbn [fst snd clock calls memCache redis trace extend fresh idle
          negb default from_option id];
     rewrite ?emit_run, ?observe_run, ?execute_run, ?fetch_run,
       ?arrayBuffer_run, ?cache_set_run, ?Index_send_run, ?Server_send_run;
     unfold extend).

(** ** The four cached branches *)

Lemma truthy_Some (t : list ascii) : t <> [] -> JS.truthy (Some t) = true.
Proof. by destruct t. Qed.

Lemma proxy_not_puppeteer (u : list ascii) :
  JS.startsWith u (lit "/proxy/") = true ->
  JS.startsWith u (lit "/puppeteer?") = false /\ u <> lit "/metrics".
Proof.
  intros H. apply startsWith_inv in H as [rest ->]. split; [reflexivity|].
  intros H. discriminate H.
Qed.

(** The decoding step has a result, the same in every world. *)
Lemma decode_run (E : Env) (rsp : FetchResponse) (buf : Buffer) :
  exists text, forall w, decode E rsp buf w = (Ok text, w).
Proof.
  unfold decode, TextDecoder_decode.
  destruct (TextDecoder E (charset_of rsp)) as [dec|].
  - by exists (dec buf).
  - exists (utf8_decode E buf). intros w. reflexivity.
Qed.

Lemma index_render_path (E : Env) (req : Request) (res : Response)
    (u t : list ascii) (w : World) :
  url req = Some u ->
  JS.startsWith u (lit "/puppeteer?") = true ->
  searchParams_get E (lit "http://dummy" ++ u) (lit "url") = Some t ->
  t <> [] ->
  Index.on_request E req res w =
  (do start <- Date_now ;
   try_catch
     (cached_response E (lit "pp:" ++ t) 30 (puppeteerCluster_execute E t)
        (fun x => Index.send E res x (lit "text/html; charset=utf-8") 30)
        (observe (lit "puppeteer") start))
     (fun _ => internal_error (observe (lit "puppeteer") start)) ;;
   ret tt) w.
Proof.
  intros Hu Hp Ht Hne. pose proof (puppeteer_not_metrics u Hp) as Hm.
  unfold Index.on_request, Index.handler, Index.metrics_listener,
    Index.handler_of, Index.puppeteer.
  cbv zeta. rewrite Hu. cbn [default from_option id].
  rewrite Hp, Ht, (truthy_Some t Hne).
  rewrite bool_decide_eq_false_2 by congruence. reflexivity.
Qed.

Lemma server_render_path (E : Env) (req : Request) (res : Response)
    (u t : list ascii) (w : World) :
  url req = Some u ->
  JS.startsWith u (lit "/puppeteer?") = true ->
  searchParams_get E (lit "http://x" ++ u) (lit "url") = Some t ->
  t <> [] ->
  Server.createBareHandler E req res w =
  (do start <- Date_now ;
   cached_response E (lit "pp:" ++ t) 30 (puppeteerCluster_execute E t)
     (fun x => Server.send E res x (lit "text/html; charset=utf-8") 30)
     (observe (lit "puppeteer") start)) w.
Proof.
  intros Hu Hp Ht Hne.
  unfold Server.createBareHandler, Server.handler_of, Server.puppeteer.
  cbv zeta. rewrite Hu. cbn [default from_option id].
  rewrite Hp, Ht, (truthy_Some t Hne). labels. reflexivity.
Qed.

(** The decode proxy, inlined in the source, is the shared shape around
    [fetch_text]. *)
Lemma proxy_shape (E : Env) (key target : list ascii)
    (send_ : list ascii -> M unit) (observe_ : Code -> M unit) (w : World) :
  (do text <- cache_get E key ;
   do text <- (if negb (JS.truthy text) then
                 do rsp <- fetch_ E target ;
                 do buf <- arrayBuffer_ E rsp ;
                 do text <- decode E rsp buf ;
                 let text := rewrite_meta text in
                 cache_set E key text 60 ;;
                 ret text
               else ret (default [] text)) ;
   send_ text ;;
   observe_ (Status 200)) w =
  cached_response E key 60 (fetch_text E target) send_ observe_ w.
Proof.
  unfold cached_response, fetch_text. cbv beta iota zeta delta [bind].
  destruct (cache_get E key w) as [[x|e] w1]; [|reflexivity].
  destruct (negb (JS.truthy x)); [|reflexivity].
  destruct (fetch_ E target w1) as [[rsp|e] w2]; [|reflexivity].
  destruct (arrayBuffer_ E rsp w2) as [[buf|e] w3]; [|reflexivity].
  destruct (decode E rsp buf w3) as [[text|e] w4]; reflexivity.
Qed.

Lemma index_proxy_shape (E : Env) (res : Response) (u : list ascii)
    (observe_ : Code -> M unit) (w : World) :
  Index.proxy E res u observe_ w =
  cached_response E (lit "px:" ++ Index.proxy_target u) 60
    (fetch_text E (Index.proxy_target u))
    (fun x => Index.send E res x (lit "text/html; charset=utf-8") 60) observe_ w.
Proof. exact (proxy_shape E _ _ _ observe_ w). Qed.

Lemma server_proxy_shape (E : Env) (res : Response) (u : list ascii)
    (observe_ : Code -> M unit) (w : World) :
  Server.proxy E res u observe_ w =
  cached_response E (lit "px:" ++ Server.proxy_target u) 60
    (fetch_text E (Server.proxy_target u))
    (fun x => Server.send E res x (lit "text/html; charset=utf-8") 60) observe_ w.
Proof. exact (proxy_shape E _ _ _ observe_ w). Qed.

Lemma index_proxy_path (E : Env) (req : Request) (res : Response)
    (u : list ascii) (w : World) :
  url req = Some u ->
  JS.startsWith u (lit "/proxy/") = true ->
  Index.on_request E req res w =
  (do start <- Date_now ;
   try_catch
     (cached_response E (lit "px:" ++ Index.proxy_target u) 60
        (fetch_text E (Index.proxy_target u))
        (fun x => Index.send E res x (lit "text/html; charset=utf-8") 60)
        (observe (lit "decode") start))
     (fun _ => internal_error (observe (lit "decode") start)) ;;
   ret tt) w.
Proof.
  intros Hu Hp. destruct (proxy_not_puppeteer u Hp) as [Hnp Hm].
  unfold Index.on_request, Index.handler, Index.metrics_listener,
    Index.handler_of.
  cbv zeta. rewrite Hu. cbn [default from_option id]. rewrite Hnp, Hp.
  rewrite bool_decide_eq_false_2 by congruence.
  cbv beta iota delta [bind try_catch Date_now].
  by rewrite index_proxy_shape.
Qed.

Lemma server_proxy_path (E : Env) (req : Request) (res : Response)
    (u : list ascii) (w : World) :
  url req = Some u ->
  JS.startsWith u (lit "/proxy/") = true ->
  Server.createBareHandler E req res w =
  (do start <- Date_now ;
   cached_response E (lit "px:" ++ Server.proxy_target u) 60
     (fetch_text E (Server.proxy_target u))
     (fun x => Server.send E res x (lit "text/html; charset=utf-8") 60)
     (observe (lit "decode") start)) w.
Proof.
  intros Hu Hp. destruct (proxy_not_puppeteer u Hp) as [Hnp Hm].
  unfold Server.createBareHandler, Server.handler_of.
  cbv zeta. rewrite Hu. cbn [default from_option id]. rewrite Hnp, Hp. labels.
  cbv beta iota delta [bind Date_now].
  by rewrite server_proxy_shape.
Qed.

Lemma execute_produces (E : Env) (t : list ascii) :
  produces (puppeteerCluster_execute E t) (execute t).
Proof.
  intros w. rewrite execute_run.
  eexists _, (latency E (calls w)), 1%nat. by rewrite Nat.add_1_r.
Qed.

Lemma fetch_text_produces (E : Env) (t : list ascii) :
  produces (fetch_text E t) (fetch t).
Proof.
  intros w. unfold fetch_text. cbv beta iota delta [bind ret].
  rewrite fetch_run.
  destruct (upstream E (calls w) t) as [rsp|].
  - rewrite arrayBuffer_run. cbn [clock calls memCache redis trace].
    destruct (arrayBuffer rsp) as [buf|].
    + destruct (decode_run E rsp buf) as [text ->].
      eexists _, (latency E (calls w) + latency E (S (calls w))), 2%nat.
      by rewrite N.add_assoc, <- Nat.add_succ_comm, Nat.add_1_r.
    + eexists _, (latency E (calls w) + latency E (S (calls w))), 2%nat.
      by rewrite N.add_assoc, <- Nat.add_succ_comm, Nat.add_1_r.
  - eexists _, (latency E (calls w)), 1%nat. by rewrite Nat.add_1_r.
Qed.

(** ** Traces *)

Lemma output_app (a b : list Event) : output (a ++ b) = output a ++ output b.
Proof. apply List.filter_app. Qed.

Lemma count_app (f : Event -> bool) (a b : list Event) :
  count f (a ++ b) = (count f a + count f b)%nat.
Proof. unfold count. by rewrite List.filter_app, length_app. Qed.

Lemma observations_app (a b : list Event) :
  observations (a ++ b) = observations a ++ observations b.
Proof. apply omap_app. Qed.

Lemma output_elem (e : Event) (tr : list Event) :
  output tr = tr -> e ∈ tr -> is_output e = true.
Proof.
  intros <- He. apply list_elem_of_In, List.filter_In in He. tauto.
Qed.

Lemma backend_call_facts (e : Event) :
  is_backend_call e = true ->
  is_output e = false /\ forall k v, e <> memCache_set k v.
Proof. destruct e; try discriminate; split; done. Qed.

Lemma backend_call_silent (e : Event) :
  is_backend_call e = true ->
  is_response e = false /\ observations [e] = [].
Proof. destruct e; try discriminate; split; done. Qed.

(** Membership in a trace written out, case by case. *)
Ltac elems :=
  repeat first [rewrite elem_of_cons | rewrite elem_of_app | rewrite elem_of_nil];
  let H := fresh "Hin" in
  intros H; decompose [or] H; clear H; try discriminate; try done.

(** ** The shared shape, over any producer and sender *)

Section Cached.

Context (E : Env) (key : list ascii) (seconds : N)
        (produce : M (list ascii)) (call : Event)
        (send_ : list ascii -> M unit) (sent : list ascii -> list Event)
        (label : list ascii).

Hypothesis produce_spec : produces produce call.
Hypothesis call_spec : is_backend_call call = true.
Hypothesis send_spec : forall x w, send_ x w = (Ok tt, extend w (sent x)).
Hypothesis sent_spec : forall x,
  output (sent x) = sent x /\ count is_backend_call (sent x) = 0%nat /\
  count is_response (sent x) = 1%nat /\ observations (sent x) = [].

#[local] Abbreviation shape start :=
  (cached_response E key seconds produce send_ (observe label start)).


(** With the empty string (or nothing) under the key in both tiers,
    both are asked and then the producer is called. *)
Lemma cached_empty_miss (start : N) (w : World) :
  holds_empty key w ->
  redis_fails E (calls w) = false ->
  exists tr,
    trace (snd (shape start w)) =
    trace w ++ [memCache_get key; redis_get key; call] ++ tr.
Proof.
  intros He Hup. destruct (cache_get_empty E key w He Hup) as (v & c & Hv & Hcg).
  unfold cached_response. cbv beta iota delta [bind ret].
  rewrite Hcg, Hv. cbn [negb].
  match goal with |- context [produce ?w1] =>
    destruct (produce_spec w1) as (r & dt & n & ->) end.
  cbn [clock calls memCache redis trace].
  destruct r as [y|e]; [|simpl; rewrite <- app_assoc; by exists []].
  rewrite cache_set_run. cbn [clock calls memCache redis trace].
  destruct (redis_fails E _ || _).
  - eexists. cbn [snd trace]. rewrite <- !app_assoc. simpl. reflexivity.
  - rewrite send_spec, observe_run. unfold extend. eexists.
    cbn [snd trace]. rewrite <- !app_assoc. simpl. reflexivity.
Qed.


(** How the shape ends: with one response and the observation of a
    200, or with an exception, and then with neither. *)
Lemma plain_outcome (start : N) (w : World) :
  trace w = [] ->
  exists r w',
    shape start w = (r, w') /\
    match r with
    | Ok _ => count is_response (trace w') = 1%nat /\
              observations (trace w') = [(label, Status 200)]
    | Throw _ => count is_response (trace w') = 0%nat /\
                 observations (trace w') = []
    end.
Proof.
  intros Htr. unfold cached_response, cache_get, memCache_get_,
    redis_get_, await.
  run. rewrite Htr. cbn [app].
  destruct (backend_call_silent call call_spec) as [Hcr Hco].
  assert (Hr : forall x, count is_response (sent x) = 1%nat)
    by (intros x; apply sent_spec).
  assert (Hobs : forall x, observations (sent x) = [])
    by (intros x; apply sent_spec).
  assert (Hcc : count is_response [call] = 0%nat)
    by (unfold count; simpl; by rewrite Hcr).
  destruct (LRU.get (clock w) key (memCache w)) as [a c1].
  destruct (JS.truthy a) eqn:Ha; run.
  { rewrite Ha. run. rewrite send_spec. run. eexists _, _. split; [reflexivity|].
    cbn [trace]. by rewrite !count_app, !observations_app, Hr, Hobs. }
  destruct (redis_fails E (calls w)); run.
  { eexists _, _. split; [reflexivity|]. done. }
  destruct (JS.truthy (Redis.get (clock w) key (redis w))) eqn:Hv; run.
  { rewrite send_spec. run. eexists _, _. split; [reflexivity|].
    cbn [trace]. by rewrite !count_app, !observations_app, Hr, Hobs. }
  match goal with |- context [produce ?w1] =>
    destruct (produce_spec w1) as (r & dt & n & ->) end.
  run. destruct r as [y|e]; run.
  2:{ eexists _, _. split; [reflexivity|]. cbn [trace].
      by rewrite !count_app, !observations_app, Hcc, Hco. }
  destruct (redis_fails E _ || _); run.
  { eexists _, _. split; [reflexivity|]. cbn [trace].
    by rewrite !count_app, !observations_app, Hcc, Hco. }
  rewrite send_spec. run. eexists _, _. split; [reflexivity|]. cbn [trace].
  by rewrite !count_app, !observations_app, Hcc, Hco, Hr, Hobs.
Qed.

(** Inside [try], an exception becomes a 500: there is always one
    response and one observation. *)
Lemma guarded_outcome (start : N) (w : World) :
  trace w = [] ->
  exists w',
    try_catch (shape start) (fun _ => internal_error (observe label start)) w
      = (Ok tt, w') /\
    count is_response (trace w') = 1%nat /\
    (observations (trace w') = [(label, Status 200)] \/
     observations (trace w') = [(label, Status 500)]).
Proof.
  intros Htr. destruct (plain_outcome start w Htr) as (r & w' & Hrun & Hr).
  cbv beta iota delta [try_catch]. rewrite Hrun.
  destruct r as [[]|e]; destruct Hr as [Hn Ho].
  - exists w'. auto.
  - unfold internal_error. run. eexists. split; [reflexivity|]. cbn [trace].
    rewrite !count_app, !observations_app, Hn, Ho. auto.
Qed.




End Cached.


(** ** Two requests in succession *)

Lemma index_sent_spec (E : Env) (res : Response) (type_ : list ascii) (maxAge : N) :
  forall x,
    output (sent_by_index E res x type_ maxAge) = sent_by_index E res x type_ maxAge /\
    count is_backend_call (sent_by_index E res x type_ maxAge) = 0%nat /\
    count is_response (sent_by_index E res x type_ maxAge) = 1%nat /\
    observations (sent_by_index E res x type_ maxAge) = [].
Proof. intros x. apply Index_send_output. Qed.

Lemma server_sent_spec (E : Env) (res : Response) (type_ : list ascii) (maxAge : N) :
  forall x,
    output (sent_by_server E res x type_ maxAge) = sent_by_server E res x type_ maxAge /\
    count is_backend_call (sent_by_server E res x type_ maxAge) = 0%nat /\
    count is_response (sent_by_server E res x type_ maxAge) = 1%nat /\
    observations (sent_by_server E res x type_ maxAge) = [].
Proof. intros x. apply Server_send_output. Qed.


(** In [index.js], when Redis rejects the write after [memCache.set],
    the first request is answered 500 and the second is served the
    document from the local tier: the two responses differ. *)
Lemma failed_store_then_hit :
  let E := Demo.flaky 2 (Demo.env Demo.page Demo.down) in
  let h := Index.on_request E (Demo.GET "/puppeteer?url=https://example.com")
             Demo.identity in
  observations (snd (fst (fst (twice h 1000 boot)))) = [(lit "puppeteer", Status 500)] /\
  observations (snd (snd (fst (twice h 1000 boot)))) = [(lit "puppeteer", Status 200)] /\
  count is_backend_call (snd (snd (fst (twice h 1000 boot)))) = 0%nat.
Proof. vm_compute. repeat split. Qed.



(** ** An empty document in the cache *)

(** Storing the empty string leaves it under the key in both tiers,
    however long one waits. *)
Lemma cache_set_holds_empty (E : Env) (key : list ascii) (seconds gap : N)
    (w0 w1 : World) :
  cache_set E key [] seconds w0 = (Ok tt, w1) ->
  holds_empty key (idle gap w1).
Proof.
  intros H. apply cache_set_inv in H as (_ & _ & ->).
  split; cbn [idle memCache redis].
  - intros e. rewrite LRU_find_set. by intros [= <-].
  - intros v d. unfold Redis.set. rewrite lookup_insert_eq. by intros [= <- _].
Qed.

(** The catch block and the metrics listener only add to the trace. *)
Lemma guarded_prefix (m : M unit) (label : list ascii) (start : N) (w : World)
    (pre : list Event) :
  (exists tr, trace (snd (m w)) = pre ++ tr) ->
  exists tr,
    trace (snd ((try_catch m (fun _ => internal_error (observe label start)) ;;
                 ret tt) w)) = pre ++ tr.
Proof.
  intros [tr Htr]. cbv beta iota delta [bind try_catch ret].
  destruct (m w) as [[[]|e] w']; simpl in Htr.
  - by exists tr.
  - unfold internal_error. run. cbn [snd trace]. rewrite Htr.
    eexists. by rewrite <- !app_assoc.
Qed.

(** C10. In a world where both tiers hold the empty string under the
    key of a request (the state that storing an empty result leaves, for
    as long as it lasts), and where Redis answers the lookup, the
    request is a miss: the local tier is asked, then Redis, then the
    render backend or the upstream is called again.  This holds for the
    render branch and the decode proxy of both entry points. *)
Theorem empty_result_is_a_miss (E : Env) (req : Request) (res : Response)
    (u : list ascii) (w : World) :
  url req = Some u ->
  redis_fails E (calls w) = false ->
  (forall key seconds gap w0 w1,
     cache_set E key [] seconds w0 = (Ok tt, w1) ->
     holds_empty key (idle gap w1)) /\
  (forall t,
     JS.startsWith u (lit "/puppeteer?") = true -> t <> [] ->
     holds_empty (lit "pp:" ++ t) w ->
     (searchParams_get E (lit "http://dummy" ++ u) (lit "url") = Some t ->
      exists tr,
        trace (snd (Index.on_request E req res (fresh w))) =
        [memCache_get (lit "pp:" ++ t); redis_get (lit "pp:" ++ t); execute t] ++ tr) /\
     (searchParams_get E (lit "http://x" ++ u) (lit "url") = Some t ->
      exists tr,
        trace (snd (Server.createBareHandler E req res (fresh w))) =
        [memCache_get (lit "pp:" ++ t); redis_get (lit "pp:" ++ t); execute t] ++ tr)) /\
  (JS.startsWith u (lit "/proxy/") = true ->
   (holds_empty (lit "px:" ++ Index.proxy_target u) w ->
    exists tr,
      trace (snd (Index.on_request E req res (fresh w))) =
      [memCache_get (lit "px:" ++ Index.proxy_target u);
       redis_get (lit "px:" ++ Index.proxy_target u);
       fetch (Index.proxy_target u)] ++ tr) /\
   (holds_empty (lit "px:" ++ Server.proxy_target u) w ->
    exists tr,
      trace (snd (Server.createBareHandler E req res (fresh w))) =
      [memCache_get (lit "px:" ++ Server.proxy_target u);
       redis_get (lit "px:" ++ Server.proxy_target u);
       fetch (Server.proxy_target u)] ++ tr)).
Proof.
  intros Hu Hup. split; [|split].
  - intros key seconds gap w0 w1. apply cache_set_holds_empty.
  - intros t Hp Hne He. split; intros Ht.
    + rewrite (index_render_path E req res u t _ Hu Hp Ht Hne).
      cbv beta iota delta [bind Date_now].
      apply (guarded_prefix _ _ _ (fresh w)).
      apply (cached_empty_miss E _ 30 _ (execute t) _ _ _
               (execute_produces E t) (fun x w => Index_send_run E res x _ 30 w)
               _ (fresh w) He Hup).
    + rewrite (server_render_path E req res u t _ Hu Hp Ht Hne).
      cbv beta iota delta [bind Date_now].
      apply (cached_empty_miss E _ 30 _ (execute t) _ _ _
               (execute_produces E t) (fun x w => Server_send_run E res x _ 30 w)
               _ (fresh w) He Hup).
  - intros Hp. split; intros He.
    + rewrite (index_proxy_path E req res u _ Hu Hp).
      cbv beta iota delta [bind Date_now].
      apply (guarded_prefix _ _ _ (fresh w)).
      apply (cached_empty_miss E _ 60 _ (fetch (Index.proxy_target u)) _ _ _
               (fetch_text_produces E _) (fun x w => Index_send_run E res x _ 60 w)
               _ (fresh w) He Hup).
    + rewrite (server_proxy_path E req res u _ Hu Hp).
      cbv beta iota delta [bind Date_now].
      apply (cached_empty_miss E _ 60 _ (fetch (Server.proxy_target u)) _ _ _
               (fetch_text_produces E _) (fun x w => Server_send_run E res x _ 60 w)
               _ (fresh w) He Hup).
Qed.

(** C10 on an upstream that answered with an empty body. *)
Lemma empty_result_is_a_miss_witness :
  let E := Demo.env Demo.page (Demo.origin (Some (lit "text/html")) []) in
  let req := Demo.GET "/proxy/example.com/empty" in
  let h := Server.createBareHandler E req Demo.identity in
  let w := idle 1000 (snd (h (fresh boot))) in
  exists tr,
    trace (snd (h (fresh w))) =
    [memCache_get (lit "px:https://example.com/empty");
     redis_get (lit "px:https://example.com/empty");
     fetch (lit "https://example.com/empty")] ++ tr.
Proof.
  intros E req h w.
  destruct (empty_result_is_a_miss E req Demo.identity
              (lit "/proxy/example.com/empty") w eq_refl eq_refl)
    as (_ & _ & Hproxy).
  destruct (Hproxy eq_refl) as [_ Hserver].
  apply Hserver. split.
  - intros e H. vm_compute in H. injection H as <-. reflexivity.
  - intros v d H. vm_compute in H. injection H as <- _. reflexivity.
Defined.

(** ** Failures and observations *)

(** The failing input of C4: the upstream of the decode proxy is out of
    reach and nothing is cached.  [createBareHandler] rejects without
    having written a response or recorded an observation; the handler of
    [index.js] answers 500 and records it. *)
Theorem unreachable_upstream :
  let E := Demo.env Demo.down Demo.down in
  let req := Demo.GET "/proxy/example.com/page" in
  (exists w,
     Server.createBareHandler E req Demo.identity boot = (Throw FetchError, w) /\
     output (trace w) = [] /\ observations (trace w) = []) /\
  (exists w,
     Index.on_request E req Demo.identity boot = (Ok tt, w) /\
     output (trace w) = [writeHead 500 (lit "text/plain; charset=utf-8");
                         end_ (Text (lit "Internal Error"))] /\
     observations (trace w) = [(lit "decode", Status 500)]).
Proof.
  intros E req. split; eexists; (split; [vm_compute; reflexivity|]);
    split; vm_compute; reflexivity.
Qed.


(** ** The other branches *)

(** X11. A file that serve-static sends is not observed, by either
    entry point. *)
Lemma static_hit_unobserved (E : Env) (req : Request) (res : Response)
    (u : list ascii) (w : World) :
  url req = Some u ->
  JS.startsWith u (lit "/puppeteer?") = false ->
  JS.startsWith u (lit "/proxy/") = false ->
  shouldRoute E req = false ->
  u <> lit "/metrics" ->
  serveStatic E req = Served ->
  Index.on_request E req res w = (Ok tt, extend w [serve; static_served]) /\
  Server.createBareHandler E req res w = (Ok tt, extend w [serve; static_served]).
Proof.
  intros Hu Hp Hx Hr Hm Hs. split.
  - unfold Index.on_request, Index.handler, Index.metrics_listener, Index.handler_of.
    cbv zeta. rewrite Hu. cbn [default from_option id]. rewrite Hp, Hx, Hr, Hs.
    rewrite bool_decide_eq_false_2 by congruence.
    step. by rewrite <- app_assoc.
  - unfold Server.createBareHandler, Server.handler_of.
    cbv zeta. rewrite Hu. cbn [default from_option id]. rewrite Hp, Hx, Hr, Hs.
    rewrite (bool_decide_eq_false_2 (u = lit "/metrics")) by done.
    labels. step. by rewrite <- app_assoc.
Qed.

(** X12. A request that the tunnel adapter owns is handed over and
    observed once; the code is 200 unless [index.js] finds the stream
    responded. *)
Lemma tunnel_observed (E : Env) (req : Request) (res : Response)
    (u : list ascii) (w : World) :
  url req = Some u ->
  JS.startsWith u (lit "/puppeteer?") = false ->
  JS.startsWith u (lit "/proxy/") = false ->
  shouldRoute E req = true ->
  u <> lit "/metrics" ->
  Index.on_request E req res w =
    (Ok tt, extend w [routeRequest;
                      observed (lit "bare")
                        (if stream_responded res then StreamState else Status 200) 0]) /\
  Server.createBareHandler E req res w =
    (Ok tt, extend w [routeRequest; observed (lit "bare") (Status 200) 0]).
Proof.
  intros Hu Hp Hx Hr Hm. split.
  - unfold Index.on_request, Index.handler, Index.metrics_listener, Index.handler_of.
    cbv zeta. rewrite Hu. cbn [default from_option id]. rewrite Hp, Hx, Hr.
    rewrite bool_decide_eq_false_2 by congruence.
    step. by rewrite N.sub_diag, <- app_assoc.
  - unfold Server.createBareHandler, Server.handler_of.
    cbv zeta. rewrite Hu. cbn [default from_option id]. rewrite Hp, Hx, Hr.
    labels. step. by rewrite N.sub_diag, <- app_assoc.
Qed.

(** On the decode proxy [index.js] always answers once and observes
    once, with 200 or with 500; [createBareHandler] does so when nothing
    fails, and otherwise rejects having done neither. *)
Lemma proxy_branch_outcome (E : Env) (req : Request) (res : Response)
    (u : list ascii) (w : World) :
  url req = Some u ->
  JS.startsWith u (lit "/proxy/") = true ->
  (exists w',
     Index.on_request E req res (fresh w) = (Ok tt, w') /\
     count is_response (trace w') = 1%nat /\
     (observations (trace w') = [(lit "decode", Status 200)] \/
      observations (trace w') = [(lit "decode", Status 500)])) /\
  (exists r w',
     Server.createBareHandler E req res (fresh w) = (r, w') /\
     match r with
     | Ok _ => count is_response (trace w') = 1%nat /\
               observations (trace w') = [(lit "decode", Status 200)]
     | Throw _ => count is_response (trace w') = 0%nat /\
                  observations (trace w') = []
     end).
Proof.
  intros Hu Hp. split.
  - rewrite (index_proxy_path E req res u _ Hu Hp).
    cbv beta iota delta [bind Date_now ret].
    destruct (guarded_outcome E (lit "px:" ++ Index.proxy_target u) 60
                (fetch_text E (Index.proxy_target u)) (fetch (Index.proxy_target u))
                (fun x => Index.send E res x (lit "text/html; charset=utf-8") 60)
                (fun x => sent_by_index E res x (lit "text/html; charset=utf-8") 60)
                (lit "decode") (fetch_text_produces E _) eq_refl
                (fun x w => Index_send_run E res x _ 60 w)
                (index_sent_spec E res _ 60)
                (clock (fresh w)) (fresh w) eq_refl) as (w' & -> & Hn & Ho).
    by exists w'.
  - rewrite (server_proxy_path E req res u _ Hu Hp).
    cbv beta iota delta [bind Date_now].
    apply (plain_outcome E (lit "px:" ++ Server.proxy_target u) 60
             (fetch_text E (Server.proxy_target u)) (fetch (Server.proxy_target u))
             (fun x => Server.send E res x (lit "text/html; charset=utf-8") 60)
             (fun x => sent_by_server E res x (lit "text/html; charset=utf-8") 60)
             (lit "decode") (fetch_text_produces E _) eq_refl
             (fun x w => Server_send_run E res x _ 60 w)
             (server_sent_spec E res _ 60)
             (clock (fresh w)) (fresh w) eq_refl).
Qed.

(** The same for the render branch with a target. *)
Lemma render_branch_outcome (E : Env) (req : Request) (res : Response)
    (u t : list ascii) (w : World) :
  url req = Some u ->
  JS.startsWith u (lit "/puppeteer?") = true ->
  t <> [] ->
  (searchParams_get E (lit "http://dummy" ++ u) (lit "url") = Some t ->
   exists w',
     Index.on_request E req res (fresh w) = (Ok tt, w') /\
     count is_response (trace w') = 1%nat /\
     (observations (trace w') = [(lit "puppeteer", Status 200)] \/
      observations (trace w') = [(lit "puppeteer", Status 500)])) /\
  (searchParams_get E (lit "http://x" ++ u) (lit "url") = Some t ->
   exists r w',
     Server.createBareHandler E req res (fresh w) = (r, w') /\
     match r with
     | Ok _ => count is_response (trace w') = 1%nat /\
               observations (trace w') = [(lit "puppeteer", Status 200)]
     | Throw _ => count is_response (trace w') = 0%nat /\
                  observations (trace w') = []
     end).
Proof.
  intros Hu Hp Hne. split; intros Ht.
  - rewrite (index_render_path E req res u t _ Hu Hp Ht Hne).
    cbv beta iota delta [bind Date_now ret].
    destruct (guarded_outcome E (lit "pp:" ++ t) 30
                (puppeteerCluster_execute E t) (execute t)
                (fun x => Index.send E res x (lit "text/html; charset=utf-8") 30)
                (fun x => sent_by_index E res x (lit "text/html; charset=utf-8") 30)
                (lit "puppeteer") (execute_produces E t) eq_refl
                (fun x w => Index_send_run E res x _ 30 w)
                (index_sent_spec E res _ 30)
                (clock (fresh w)) (fresh w) eq_refl) as (w' & -> & Hn & Ho).
    by exists w'.
  - rewrite (server_render_path E req res u t _ Hu Hp Ht Hne).
    cbv beta iota delta [bind Date_now].
    apply (plain_outcome E (lit "pp:" ++ t) 30
             (puppeteerCluster_execute E t) (execute t)
             (fun x => Server.send E res x (lit "text/html; charset=utf-8") 30)
             (fun x => sent_by_server E res x (lit "text/html; charset=utf-8") 30)
             (lit "puppeteer") (execute_produces E t) eq_refl
             (fun x w => Server_send_run E res x _ 30 w)
             (server_sent_spec E res _ 30)
             (clock (fresh w)) (fresh w) eq_refl).
Qed.

(** ** The regular-expression matcher *)

Section Matcher.

Import Regex.

Context (ci : bool).

Lemma match_here_plus_cons (c d : ascii) (p : list atom) (s : list ascii) :
  match_here ci (PlusNot c :: p) (d :: s) =
  if Ascii.eqb d c then None
  else match match_here ci (PlusNot c :: p) s with
       | Some (n :: ns) => Some (S n :: ns)
       | _ => cons 1%nat <$> match_here ci p s
       end.
Proof. reflexivity. Qed.

(** What the matcher finds is in the language of the pattern; each
    atom has its share of the match. *)
Lemma match_here_sound (p : list atom) :
  forall s ls,
    match_here ci p s = Some ls ->
    length ls = length p /\
    exists m rest, s = m ++ rest /\ matches ci p m /\ length m = sum_list ls.
Proof.
  induction p as [|[c|c] p IH]; intros s ls.
  - intros [= <-]. split; [done|]. exists [], s. repeat split. constructor.
  - destruct s as [|d s]; [discriminate|]. simpl.
    destruct (char_eq ci c d) eqn:Hc; [|discriminate].
    destruct (match_here ci p s) as [ls'|] eqn:Hm; [|discriminate].
    intros [= <-]. destruct (IH _ _ Hm) as (Hlen & m & rest & -> & Hmm & Hsum).
    split; [simpl; by rewrite Hlen|].
    exists (d :: m), rest. repeat split; [by constructor|]. simpl. by rewrite Hsum.
  - revert ls. induction s as [|d s IHs]; intros ls; [discriminate|].
    rewrite match_here_plus_cons.
    destruct (Ascii.eqb_spec d c) as [->|Hdc]; [discriminate|].
    destruct (match_here ci (PlusNot c :: p) s) as [[|n ns]|] eqn:Hplus.
    + destruct (IHs _ eq_refl) as [Hlen _]. discriminate Hlen.
    + intros [= <-].
      destruct (IHs _ eq_refl) as (Hlen & m & rest & -> & Hmm & Hsum).
      split; [done|].
      inversion Hmm as [| |c' y p' m' Hy Hall Hm' Hp Heq]; subst.
      exists ((d :: y) ++ m'), rest. split; [done|]. split.
      * constructor; [done| |done]. by constructor.
      * simpl in *. lia.
    + destruct (match_here ci p s) as [ls'|] eqn:Hm; [|discriminate].
      intros [= <-]. destruct (IH _ _ Hm) as (Hlen & m & rest & -> & Hmm & Hsum).
      split; [simpl; by rewrite Hlen|].
      exists ([d] ++ m), rest. split; [done|]. split.
      * constructor; [done| |done]. by constructor.
      * simpl. by rewrite Hsum.
Qed.

Lemma match_here_plus_complete (c : ascii) (p : list atom) (y s : list ascii) :
  y <> [] -> Forall (fun d => d <> c) y ->
  is_Some (match_here ci p s) ->
  is_Some (match_here ci (PlusNot c :: p) (y ++ s)).
Proof.
  intros Hy Hall Hs. induction y as [|d y IHy]; [done|].
  apply Forall_cons in Hall as [Hd Hall].
  change (is_Some (match_here ci (PlusNot c :: p) (d :: (y ++ s)))).
  rewrite match_here_plus_cons.
  destruct (Ascii.eqb_spec d c) as [->|_]; [done|].
  destruct (match_here ci (PlusNot c :: p) (y ++ s)) as [[|n ns]|] eqn:Hplus.
  - destruct (match_here_sound _ _ _ Hplus) as [Hlen _]. discriminate Hlen.
  - by eexists.
  - destruct y as [|d' y].
    + destruct Hs as [ls Hls]. simpl. rewrite Hls. by eexists.
    + destruct (IHy ltac:(done) Hall) as [ls Hls]. discriminate Hls.
Qed.

(** Whatever is in the language of the pattern is found, with some
    division among the atoms. *)
Lemma match_here_complete (p : list atom) (m : list ascii) :
  matches ci p m -> forall rest, is_Some (match_here ci p (m ++ rest)).
Proof.
  induction 1 as [|c d p m Hc _ IH|c y p m Hy Hall _ IH]; intros rest.
  - by eexists.
  - simpl. rewrite Hc. destruct (IH rest) as [ls ->]. by eexists.
  - rewrite <- app_assoc. by apply match_here_plus_complete.
Qed.

(** The leftmost match. *)
Lemma search_from_Some (p : list atom) (s : list ascii) (i : nat) (ls : list nat) :
  search_from ci p s = Some (i, ls) ->
  match_here ci p (drop i s) = Some ls /\ (i <= length s)%nat /\
  forall j, (j < i)%nat -> match_here ci p (drop j s) = None.
Proof.
  revert i. induction s as [|d s IH]; intros i; simpl.
  - destruct (match_here ci p []) eqn:Hm; [|discriminate].
    intros [= <- <-]. split; [done|]. split; [lia|]. intros j Hj. lia.
  - destruct (match_here ci p (d :: s)) as [ls'|] eqn:Hm.
    + intros [= <- <-]. split; [done|]. split; [lia|]. intros j Hj. lia.
    + destruct (search_from ci p s) as [[i' ls']|] eqn:Hs; [|discriminate].
      intros [= <- <-]. destruct (IH _ eq_refl) as (Hi & Hle & Hlt).
      split; [done|]. split; [lia|]. intros [|j] Hj; [done|]. apply Hlt. lia.
Qed.

Lemma search_from_None (p : list atom) (s : list ascii) :
  search_from ci p s = None ->
  forall j, (j <= length s)%nat -> match_here ci p (drop j s) = None.
Proof.
  induction s as [|d s IH]; simpl.
  - destruct (match_here ci p []) eqn:Hm; [discriminate|].
    intros _ j Hj. by rewrite drop_nil.
  - destruct (match_here ci p (d :: s)) as [ls'|] eqn:Hm; [discriminate|].
    destruct (search_from ci p s) as [[i' ls']|] eqn:Hs; [discriminate|].
    intros _ [|j] Hj; [done|]. apply IH; [done|lia].
Qed.

Lemma search_from_leftmost (p : list atom) (s : list ascii) (i : nat) (ls : list nat) :
  (i <= length s)%nat ->
  match_here ci p (drop i s) = Some ls ->
  (forall j, (j < i)%nat -> match_here ci p (drop j s) = None) ->
  search_from ci p s = Some (i, ls).
Proof.
  revert i. induction s as [|d s IH]; intros i Hle Hi Hlt.
  - simpl in Hle. assert (i = 0%nat) as -> by lia. simpl in *. by rewrite Hi.
  - destruct i as [|i].
    + simpl in *. by rewrite Hi.
    + simpl. pose proof (Hlt 0%nat ltac:(lia)) as H0. simpl in H0. rewrite H0.
      rewrite (IH i); [done|simpl in Hle; lia|done|].
      intros j Hj. apply (Hlt (S j)). lia.
Qed.

End Matcher.

(** ** The meta-charset pattern *)

Section Meta.

Import Regex.

#[local] Abbreviation ci_eq := (fun c d : ascii => char_eq true c d = true).
#[local] Abbreviation tag := (lit "<meta").
#[local] Abbreviation attr := (lit "charset=").

Lemma matches_lits_inv (ci : bool) (l : list ascii) (p : list atom) (m : list ascii) :
  matches ci (map Lit l ++ p) m ->
  exists L m', m = L ++ m' /\
               Forall2 (fun c d => char_eq ci c d = true) l L /\ matches ci p m'.
Proof.
  revert m. induction l as [|c l IH]; intros m H; simpl in H.
  - exists [], m. repeat split; [constructor|done].
  - inversion H as [|c' d p' m0 Hc Hm| ]; subst.
    destruct (IH _ Hm) as (L & m' & -> & HL & Hm').
    exists (d :: L), m'. repeat split; [by constructor|done].
Qed.

Lemma matches_lits_intro (ci : bool) (l L : list ascii) (p : list atom) (m : list ascii) :
  Forall2 (fun c d => char_eq ci c d = true) l L -> matches ci p m ->
  matches ci (map Lit l ++ p) (L ++ m).
Proof.
  induction 1 as [|c d l L Hc _ IH]; intros Hm; simpl; [done|].
  constructor; [done|]. by apply IH.
Qed.

Lemma upper_gt (d : ascii) : upper d = ">"%char -> d = ">"%char.
Proof.
  destruct d as [[] [] [] [] [] [] [] []]; vm_compute; intros H;
    first [reflexivity | discriminate H].
Qed.

Lemma upper_lt (d : ascii) : upper d = "<"%char -> d = "<"%char.
Proof.
  destruct d as [[] [] [] [] [] [] [] []]; vm_compute; intros H;
    first [reflexivity | discriminate H].
Qed.

Lemma ci_eq_upper (c d : ascii) : ci_eq c d -> upper c = upper d.
Proof. unfold char_eq. by intros H%Ascii.eqb_eq. Qed.

(** A text equal to a literal up to letter case holds none of the
    characters the literal, upper-cased, does not hold. *)
Lemma ci_eq_avoids (x : ascii) (l L : list ascii) :
  (forall d, upper d = x -> d = x) -> upper x = x ->
  Forall2 ci_eq l L -> Forall (fun c => upper c <> x) l ->
  Forall (fun d => d <> x) L.
Proof.
  intros Hx Hux. induction 1 as [|c d l L Hc _ IH]; intros Hl; [constructor|].
  apply Forall_cons in Hl as [Hcx Hl]. constructor; [|by apply IH].
  intros ->. apply ci_eq_upper in Hc. congruence.
Qed.

Lemma atoms_meta :
  atoms re_meta =
  map Lit tag ++ PlusNot ">" :: map Lit attr ++ [PlusNot ">"; Lit ">"].
Proof. reflexivity. Qed.

Lemma tag_avoids_gt (L : list ascii) :
  Forall2 ci_eq tag L -> Forall (fun d => d <> ">"%char) L.
Proof.
  intros H. apply (ci_eq_avoids ">" tag L upper_gt eq_refl H).
  repeat constructor; discriminate.
Qed.

Lemma attr_avoids_gt (C : list ascii) :
  Forall2 ci_eq attr C -> Forall (fun d => d <> ">"%char) C.
Proof.
  intros H. apply (ci_eq_avoids ">" attr C upper_gt eq_refl H).
  repeat constructor; discriminate.
Qed.

(** The shape of a match of [/<meta[^>]+charset=[^>]+>/i]. *)
Lemma meta_inv (m : list ascii) :
  matches true (atoms re_meta) m ->
  exists L a C b,
    m = L ++ a ++ C ++ b ++ [">"%char] /\
    Forall2 ci_eq tag L /\ a <> [] /\ Forall (fun d => d <> ">"%char) a /\
    Forall2 ci_eq attr C /\ b <> [] /\ Forall (fun d => d <> ">"%char) b.
Proof.
  rewrite atoms_meta. intros H.
  apply matches_lits_inv in H as (L & m1 & -> & HL & H).
  inversion H as [| |c a p m2 Ha Hall H2]; subst.
  apply (matches_lits_inv true attr [PlusNot ">"; Lit ">"]) in H2
    as (C & m3 & -> & HC & H3).
  inversion H3 as [| |c b p m4 Hb Hallb H4]; subst.
  inversion H4 as [|c d p m5 Hg H5|]; subst. inversion H5; subst.
  apply ci_eq_upper in Hg. symmetry in Hg. apply upper_gt in Hg as ->.
  by exists L, a, C, b.
Qed.

Lemma meta_intro (L a C b : list ascii) :
  Forall2 ci_eq tag L -> a <> [] -> Forall (fun d => d <> ">"%char) a ->
  Forall2 ci_eq attr C -> b <> [] -> Forall (fun d => d <> ">"%char) b ->
  matches true (atoms re_meta) (L ++ a ++ C ++ b ++ [">"%char]).
Proof.
  intros HL Ha Hall HC Hb Hallb. rewrite atoms_meta.
  apply matches_lits_intro; [done|]. constructor; [done..|].
  apply matches_lits_intro; [done|]. constructor; [done..|].
  constructor; [reflexivity|constructor].
Qed.

(** A match ends at the first [>] of the text. *)
Lemma meta_ends (m : list ascii) :
  matches true (atoms re_meta) m ->
  exists x, m = x ++ [">"%char] /\ Forall (fun d => d <> ">"%char) x.
Proof.
  intros H. apply meta_inv in H as (L & a & C & b & -> & HL & _ & Ha & HC & _ & Hb).
  exists (L ++ a ++ C ++ b). split; [by rewrite <- !app_assoc|].
  rewrite !Forall_app. auto using tag_avoids_gt, attr_avoids_gt.
Qed.

Lemma first_occurrence (c : ascii) (l1 l2 r1 r2 : list ascii) :
  l1 ++ c :: r1 = l2 ++ c :: r2 ->
  Forall (fun d => d <> c) l1 -> Forall (fun d => d <> c) l2 ->
  l1 = l2 /\ r1 = r2.
Proof.
  revert l2. induction l1 as [|d l1 IH]; intros [|d2 l2] Heq H1 H2; simpl in Heq.
  - by injection Heq.
  - injection Heq as <- _. by apply Forall_cons in H2 as [? _].
  - injection Heq as -> _. by apply Forall_cons in H1 as [? _].
  - injection Heq as <- Heq.
    apply Forall_cons in H1 as [_ H1]. apply Forall_cons in H2 as [_ H2].
    destruct (IH _ Heq H1 H2) as [-> ->]. done.
Qed.

Lemma meta_utf8_split :
  exists c0, meta_utf8 = "<"%char :: c0 ++ [">"%char] /\
             Forall (fun d => d <> ">"%char) ("<"%char :: c0).
Proof.
  exists (lit "meta charset=" ++ [dquote] ++ lit "utf-8" ++ [dquote]).
  split; [reflexivity|]. vm_compute. repeat constructor; discriminate.
Qed.

(** The canonical declaration is matched as a whole, whatever follows. *)
Lemma meta_utf8_matched (post : list ascii) :
  exists ls, match_here true (atoms re_meta) (meta_utf8 ++ post) = Some ls /\
             sum_list ls = length meta_utf8.
Proof. eexists. split; reflexivity. Qed.

(** The tag name cannot begin inside a text that begins with [<]. *)
Lemma tag_not_across (L p2 k : list ascii) :
  Forall2 ci_eq tag L -> p2 <> [] -> L = p2 ++ "<"%char :: k -> False.
Proof.
  intros HL Hp ->.
  destruct p2 as [|x1 p2]; [done|].
  apply Forall2_cons_inv_l in HL as (d0 & L0 & _ & HL & [= <- <-]).
  assert (Hno : Forall (fun d => d <> "<"%char) (p2 ++ "<"%char :: k)).
  { apply (ci_eq_avoids "<" (lit "meta") _ upper_lt eq_refl HL).
    repeat constructor; discriminate. }
  apply Forall_app in Hno as [_ Hno]. by apply Forall_cons in Hno as [? _].
Qed.

(** A match that begins before the canonical declaration and reaches
    into it also exists when any other match stands in its place. *)
Lemma meta_match_transfer (p2 m post m2 r2 : list ascii) :
  p2 <> [] ->
  matches true (atoms re_meta) m ->
  matches true (atoms re_meta) m2 ->
  p2 ++ meta_utf8 ++ post = m2 ++ r2 ->
  exists m3 r3, p2 ++ m ++ post = m3 ++ r3 /\ matches true (atoms re_meta) m3.
Proof.
  intros Hp Hm Hm2 Heq.
  destruct (meta_ends m2 Hm2) as (x2 & -> & Hx2).
  destruct meta_utf8_split as (c0 & Hc0 & Hc0gt).
  destruct (decide (">"%char ∈ p2)) as [Hin|Hnin].
  - apply list_elem_of_split_l in Hin as (q & q' & -> & Hq).
    rewrite <- !app_assoc in Heq. simpl in Heq.
    apply first_occurrence in Heq as [-> _]; [|by apply Forall_forall; intros ? ? ->|done].
    exists (x2 ++ [">"%char]), (q' ++ m ++ post). split; [|done].
    by rewrite <- !app_assoc.
  - assert (Hp2 : Forall (fun d => d <> ">"%char) p2)
      by (apply Forall_forall; intros ? ? ->; done).
    rewrite Hc0 in Heq.
    assert (Heq' : (p2 ++ "<"%char :: c0) ++ ">"%char :: post
                   = x2 ++ ">"%char :: r2).
    { rewrite <- !app_assoc in *. simpl in *. by rewrite <- !app_assoc in Heq. }
    apply first_occurrence in Heq' as [Hx _]; [|by apply Forall_app|done].
    subst x2.
    destruct (meta_inv _ Hm2) as (L2 & a2 & C2 & b2 & Heq2 & HL2 & _).
    destruct (meta_inv _ Hm) as (Lm & am & Cm & bm & -> & HLm & Ham & Hamgt & HCm & Hbm & Hbmgt).
    assert (Hpre : exists q, p2 = L2 ++ q).
    { rewrite <- app_assoc in Heq2.
      apply app_eq_inv in Heq2 as [(k & Hk1 & Hk2)|(k & Hk1 & Hk2)].
      - by exists k.
      - (* the tag name would reach beyond [p2] *)
        destruct k as [|x k]; [exists []; rewrite app_nil_r in *; congruence|].
        simpl in Hk2. injection Hk2 as Hx _. subst x.
        exfalso. exact (tag_not_across L2 p2 k HL2 Hp Hk1). }
    destruct Hpre as [q ->]. apply Forall_app in Hp2 as [_ Hq].
    exists (L2 ++ (q ++ Lm ++ am) ++ Cm ++ bm ++ [">"%char]), post. split.
    + by rewrite <- !app_assoc.
    + apply meta_intro; try done.
      * destruct Lm; [by inversion HLm|]. by destruct q.
      * rewrite !Forall_app. auto using tag_avoids_gt.
Qed.

End Meta.

Lemma rewrite_meta_unfold (d : list ascii) :
  rewrite_meta d =
  match Regex.search_from true (Regex.atoms re_meta) d with
  | Some (i, ls) => take i d ++ meta_utf8 ++ drop (i + sum_list ls) d
  | None => d
  end.
Proof. reflexivity. Qed.

(** Rewriting the first declaration leaves a document that the rewrite
    no longer changes. *)
Lemma rewrite_meta_idempotent (d : list ascii) :
  rewrite_meta (rewrite_meta d) = rewrite_meta d.
Proof.
  rewrite (rewrite_meta_unfold d).
  destruct (Regex.search_from true (Regex.atoms re_meta) d) as [[i ls]|] eqn:Hs.
  2:{ by rewrite rewrite_meta_unfold, Hs. }
  rewrite rewrite_meta_unfold.
  apply search_from_Some in Hs as (Hi & Hle & Hlt).
  destruct (match_here_sound _ _ _ _ Hi) as (_ & m & post & Hd & Hm & Hlen).
  set (pre := take i d).
  assert (Hdrop : drop (i + sum_list ls) d = post).
  { rewrite <- drop_drop, Hd, <- Hlen. by rewrite drop_app_length. }
  rewrite Hdrop.
  assert (Hpre : length pre = i) by (unfold pre; rewrite length_take; lia).
  destruct (meta_utf8_matched post) as (ls' & Hls' & Hsum).
  assert (Hs' : Regex.search_from true (Regex.atoms re_meta)
                  (pre ++ meta_utf8 ++ post) = Some (i, ls')).
  { apply search_from_leftmost.
    - rewrite length_app. lia.
    - by rewrite <- Hpre, drop_app_length.
    - intros j Hj.
      destruct (Regex.match_here true (Regex.atoms re_meta)
                  (drop j (pre ++ meta_utf8 ++ post))) as [ls2|] eqn:Hj2; [|done].
      exfalso.
      destruct (match_here_sound _ _ _ _ Hj2) as (_ & m2 & r2 & Heq2 & Hm2 & _).
      rewrite drop_app_le in Heq2 by lia.
      destruct (meta_match_transfer (drop j pre) m post m2 r2) as (m3 & r3 & Heq3 & Hm3);
        [|done..|].
      { intros Hnil. apply (f_equal length) in Hnil.
        rewrite length_drop in Hnil. simpl in Hnil. lia. }
      destruct (match_here_complete true _ _ Hm3 r3) as [ls3 Hls3].
      rewrite <- Heq3 in Hls3.
      assert (Hdj : drop j d = drop j pre ++ m ++ post).
      { rewrite <- (take_drop i d) at 1. fold pre. rewrite Hd.
        rewrite drop_app_le by lia. done. }
      rewrite <- Hdj, (Hlt j Hj) in Hls3. discriminate Hls3. }
  rewrite Hs'. rewrite take_app_length' by done.
  rewrite <- Hpre at 1. rewrite <- drop_drop, drop_app_length.
  by rewrite Hsum, drop_app_length.
Qed.


(** Where the search finds nothing, no part of the document is in the
    language of the pattern, and conversely. *)
Lemma search_none_iff (d : list ascii) :
  Regex.search_from true (Regex.atoms re_meta) d = None <->
  (forall pre m post,
     d = pre ++ m ++ post -> ~ Regex.matches true (Regex.atoms re_meta) m).
Proof.
  split.
  - intros Hs pre m post -> Hm.
    destruct (match_here_complete true _ _ Hm post) as [ls Hls].
    pose proof (search_from_None true _ _ Hs (length pre)) as Hn.
    rewrite drop_app_length, Hls in Hn. discriminate Hn.
    rewrite length_app. lia.
  - intros Hno.
    destruct (Regex.search_from true (Regex.atoms re_meta) d) as [[i ls]|] eqn:Hs;
      [|done].
    apply search_from_Some in Hs as (Hi & _ & _).
    destruct (match_here_sound _ _ _ _ Hi) as (_ & m & post & Hd & Hm & _).
    exfalso. apply (Hno (take i d) m post); [|done].
    by rewrite <- Hd, take_drop.
Qed.

(** Against C7 as stated, two documents that the rewrite changes: one
    declares UTF-8 with capital letters and no quotes, the other holds
    no charset declaration but the text [charset=] inside a
    description. *)
Lemma declared_utf8_is_rewritten :
  declares_utf8 (lit "<meta charset=UTF-8>") = true /\
  rewrite_meta (lit "<meta charset=UTF-8>") = meta_utf8 /\
  meta_utf8 <> lit "<meta charset=UTF-8>" /\
  rewrite_meta (lit "<meta name=description content='what charset=x means'>")
    = meta_utf8.
Proof. repeat split. discriminate. Qed.

(** C7 (amended). The meta-charset rewrite is idempotent: a document
    that has been rewritten is left unchanged by a second rewrite.  It
    is the identity on a document whose first match of the pattern is
    the text [<meta charset="utf-8">] itself, and on a document no part
    of which is matched by the pattern. *)
Theorem rewrite_meta_fixed_points :
  (forall d, rewrite_meta (rewrite_meta d) = rewrite_meta d) /\
  (forall d i ls,
     Regex.exec re_meta d = Some (i, ls) ->
     take (sum_list ls) (drop i d) = meta_utf8 ->
     rewrite_meta d = d) /\
  (forall d,
     (forall pre m post,
        d = pre ++ m ++ post -> ~ Regex.matches true (Regex.atoms re_meta) m) ->
     rewrite_meta d = d).
Proof.
  split; [exact rewrite_meta_idempotent|]. split.
  - intros d i ls Hex Hcanon. unfold rewrite_meta, Regex.replace.
    rewrite Hex, <- Hcanon, <- drop_drop, take_drop. apply take_drop.
  - intros d Hno. apply search_none_iff in Hno.
    by rewrite rewrite_meta_unfold, Hno.
Qed.

(** C7 on a document that starts with the canonical declaration and on
    one without any. *)
Lemma rewrite_meta_fixed_points_witness :
  rewrite_meta (meta_utf8 ++ lit "<title>t</title>") = meta_utf8 ++ lit "<title>t</title>" /\
  rewrite_meta (lit "<p>hi</p>") = lit "<p>hi</p>".
Proof.
  destruct rewrite_meta_fixed_points as (_ & Hcanon & Hnone). split.
  - apply (Hcanon _ 0%nat
             [1; 1; 1; 1; 1; 1; 1; 1; 1; 1; 1; 1; 1; 1; 7; 1]%nat);
      reflexivity.
  - apply Hnone. apply search_none_iff. reflexivity.
Defined.

(* ================================================================= *)
(** * Further properties of the entry points *)

(** ** What the producers yield *)


Lemma execute_yields (E : Env) (t : list ascii) (w : World) (y : list ascii)
    (w' : World) :
  puppeteerCluster_execute E t w = (Ok y, w') -> rendered E t y.
Proof.
  rewrite execute_run.
  destruct (page_content E (calls w) t) as [html|] eqn:Hp; [|discriminate].
  intros [= <- _]. by exists (calls w), html.
Qed.

Lemma fetch_text_yields (E : Env) (t : list ascii) (w : World) (y : list ascii)
    (w' : World) :
  fetch_text E t w = (Ok y, w') -> proxied E t y.
Proof.
  unfold fetch_text. cbv beta iota delta [bind ret].
  rewrite fetch_run.
  destruct (upstream E (calls w) t) as [rsp|] eqn:Hup; [|discriminate].
  rewrite arrayBuffer_run.
  destruct (arrayBuffer rsp) as [buf|] eqn:Hbuf; [|discriminate].
  destruct (decode_run E rsp buf) as [text Hdec]. rewrite Hdec.
  intros [= <- _]. exists (calls w), rsp, buf, w, text. by rewrite Hdec.
Qed.

Lemma rendered_rewritten (E : Env) (t y : list ascii) :
  rendered E t y -> rewrite_meta y = y.
Proof. intros (n & html & _ & ->). apply rewrite_meta_idempotent. Qed.

Lemma proxied_rewritten (E : Env) (t y : list ascii) :
  proxied E t y -> rewrite_meta y = y.
Proof.
  intros (n & rsp & buf & w & text & _ & _ & _ & ->).
  apply rewrite_meta_idempotent.
Qed.

(** [send] writes headers and one body. *)
Lemma sent_by_index_events (E : Env) (res : Response) (x type_ : list ascii)
    (maxAge : N) (e : Event) :
  e ∈ sent_by_index E res x type_ maxAge ->
  (exists n v, e = setHeader n v) \/ e = end_ (Text x) \/
  (exists bs, e = end_ (Bytes bs)).
Proof.
  unfold sent_by_index, Index.send. destruct (JS.truthy _ && _); step;
    elems; subst; eauto.
Qed.

Lemma sent_by_server_events (E : Env) (res : Response) (x type_ : list ascii)
    (maxAge : N) (e : Event) :
  e ∈ sent_by_server E res x type_ maxAge ->
  (exists n v, e = setHeader n v) \/ e = end_ (Text x) \/
  (exists bs, e = end_ (Bytes bs)).
Proof.
  unfold sent_by_server, Server.send. destruct (JS.includes _ _); step;
    elems; subst; eauto.
Qed.

(** ** From the shared shape to the four branches *)

Lemma on_cached_branches_intro (E : Env) (req : Request) (res : Response)
    (u : list ascii) (P : Branch -> Prop) :
  url req = Some u ->
  (forall h1 h2 g k l s c sn d,
     (forall w, h2 w = h1 w) ->
     P (Build_Branch h1 g k l s c sn d) -> P (Build_Branch h2 g k l s c sn d)) ->
  (forall key seconds produce call send_ sent label (made : list ascii -> Prop),
     produces produce call ->
     (forall w y w', produce w = (Ok y, w') -> made y) ->
     is_backend_call call = true ->
     (forall x w, send_ x w = (Ok tt, extend w (sent x))) ->
     (forall x,
        output (sent x) = sent x /\ count is_backend_call (sent x) = 0%nat /\
        count is_response (sent x) = 1%nat /\ observations (sent x) = []) ->
     (forall x e, e ∈ sent x ->
        (exists n v, e = setHeader n v) \/ e = end_ (Text x) \/
        (exists bs, e = end_ (Bytes bs))) ->
     P (Build_Branch (guarded_shape E key seconds produce send_ label) true
          key label seconds call sent made) /\
     P (Build_Branch (plain_shape E key seconds produce send_ label) false
          key label seconds call sent made)) ->
  on_cached_branches E req res u P.
Proof.
  intros Hu Hext Hshape. split.
  - intros t Hp Hne. split; intros Ht.
    + eapply Hext; [intros w; apply (index_render_path E req res u t w Hu Hp Ht Hne)|].
      apply (Hshape _ 30 _ (execute t) _ _ _ _ (execute_produces E t)
               (execute_yields E t) eq_refl
               (fun x w => Index_send_run E res x _ 30 w) (index_sent_spec E res _ 30)
               (fun x => sent_by_index_events E res x _ 30)).
    + eapply Hext; [intros w; apply (server_render_path E req res u t w Hu Hp Ht Hne)|].
      apply (Hshape _ 30 _ (execute t) _ _ _ _ (execute_produces E t)
               (execute_yields E t) eq_refl
               (fun x w => Server_send_run E res x _ 30 w) (server_sent_spec E res _ 30)
               (fun x => sent_by_server_events E res x _ 30)).
  - intros Hp. split.
    + eapply Hext; [intros w; apply (index_proxy_path E req res u w Hu Hp)|].
      apply (Hshape _ 60 _ (fetch (Index.proxy_target u)) _ _ _ _
               (fetch_text_produces E _) (fetch_text_yields E _) eq_refl
               (fun x w => Index_send_run E res x _ 60 w) (index_sent_spec E res _ 60)
               (fun x => sent_by_index_events E res x _ 60)).
    + eapply Hext; [intros w; apply (server_proxy_path E req res u w Hu Hp)|].
      apply (Hshape _ 60 _ (fetch (Server.proxy_target u)) _ _ _ _
               (fetch_text_produces E _) (fetch_text_yields E _) eq_refl
               (fun x w => Server_send_run E res x _ 60 w) (server_sent_spec E res _ 60)
               (fun x => sent_by_server_events E res x _ 60)).
Qed.

(** [index.js] turns an exception of the shape into a 500; [server.js]
    lets it through. *)
Lemma guarded_shape_run (E : Env) (key : list ascii) (seconds : N)
    (produce : M (list ascii)) (send_ : list ascii -> M unit)
    (label : list ascii) (w : World) :
  guarded_shape E key seconds produce send_ label w =
  match cached_response E key seconds produce send_ (observe label (clock w)) w with
  | (Ok _, w') => (Ok tt, w')
  | (Throw _, w') =>
      (Ok tt, extend w' [writeHead 500 (lit "text/plain; charset=utf-8");
                         end_ (Text (lit "Internal Error"));
                         observed label (Status 500) (clock w' - clock w)])
  end.
Proof.
  unfold guarded_shape, internal_error. cbv beta iota delta [bind try_catch ret Date_now].
  destruct (cached_response _ _ _ _ _ _ w) as [[[]|e] w']; [reflexivity|].
  run. by rewrite <- !app_assoc.
Qed.

Lemma plain_shape_run (E : Env) (key : list ascii) (seconds : N)
    (produce : M (list ascii)) (send_ : list ascii -> M unit)
    (label : list ascii) (w : World) :
  plain_shape E key seconds produce send_ label w =
  cached_response E key seconds produce send_ (observe label (clock w)) w.
Proof. reflexivity. Qed.

(** A property of what a branch does on a world does not depend on how
    the entry point is written. *)
Ltac same_entry :=
  let Heq := fresh "Heq" in
  let HP := fresh "HP" in
  intros ? ? ? ? ? ? ? ? ? Heq HP; cbn [entry guarded cache_key handler_label
    remote_ttl backend sends document] in *; intros; rewrite ?Heq in *; eauto.

(** ** Every way through the shared shape *)

Section CachedTraces.

Context (E : Env) (key : list ascii) (seconds : N)
        (produce : M (list ascii)) (call : Event)
        (send_ : list ascii -> M unit) (sent : list ascii -> list Event)
        (label : list ascii).

Hypothesis produce_spec : produces produce call.
Hypothesis call_spec : is_backend_call call = true.
Hypothesis send_spec : forall x w, send_ x w = (Ok tt, extend w (sent x)).
Hypothesis sent_spec : forall x,
  output (sent x) = sent x /\ count is_backend_call (sent x) = 0%nat /\
  count is_response (sent x) = 1%nat /\ observations (sent x) = [].

#[local] Abbreviation shape start :=
  (cached_response E key seconds produce send_ (observe label start)).


(** The local tier has nothing to serve and Redis rejects the lookup:
    the exception leaves the shape before the producer is called. *)
Lemma shape_lookup_fails (start : N) (w : World) :
  JS.truthy (fst (LRU.get (clock w) key (memCache w))) = false ->
  redis_fails E (calls w) = true ->
  shape start w =
  (Throw RedisError,
   {| clock := clock w; calls := calls w;
      memCache := snd (LRU.get (clock w) key (memCache w));
      redis := redis w;
      trace := trace w ++ [memCache_get key; redis_get key] |}).
Proof.
  intros Ha Hup. unfold cached_response, cache_get, memCache_get_,
    redis_get_, await.
  run. destruct (LRU.get (clock w) key (memCache w)) as [a c]. simpl in Ha.
  run. rewrite Ha. run. rewrite Hup. run. by rewrite <- !app_assoc.
Qed.

(** A run that writes [body] to the local tier has missed in both
    tiers and called the producer; whether it ends well depends on
    Redis alone. *)
Lemma shape_store (start : N) (w w1 : World) (r : result unit)
    (body : list ascii) :
  trace w = [] ->
  shape start w = (r, w1) ->
  memCache_set key body ∈ trace w1 ->
  exists ts c,
    clock w <= ts /\ memCache w1 = LRU.set ts key body c /\
    (exists wa wb, produce wa = (Ok body, wb)) /\
    match r with
    | Ok _ =>
        redis w1 = Redis.set ts key body seconds (redis w) /\
        exists el,
          trace w1 = [memCache_get key; redis_get key; call;
                      memCache_set key body; redis_set key body seconds]
                     ++ sent body ++ [observed label (Status 200) el]
    | Throw e =>
        e = RedisError /\ redis w1 = redis w /\
        trace w1 = [memCache_get key; redis_get key; call;
                    memCache_set key body; redis_set key body seconds]
    end.
Proof.
  intros Htr. unfold cached_response, cache_get, memCache_get_,
    redis_get_, await.
  run. rewrite Htr. cbn [app].
  destruct (backend_call_facts call call_spec) as [Hco Hcm].
  destruct (LRU.get (clock w) key (memCache w)) as [a c1].
  destruct (JS.truthy a) eqn:Ha; run.
  { rewrite Ha. run. rewrite send_spec. run. intros [= <- <-]. cbn [trace].
    elems.
    match goal with H : _ ∈ sent _ |- _ =>
      apply (output_elem _ _ (proj1 (sent_spec _))) in H; discriminate H end. }
  destruct (redis_fails E (calls w)); run.
  { intros [= <- <-]. cbn [trace]. elems. }
  destruct (JS.truthy (Redis.get (clock w) key (redis w))) eqn:Hv; run.
  { rewrite send_spec. run. intros [= <- <-]. cbn [trace].
    elems.
    match goal with H : _ ∈ sent _ |- _ =>
      apply (output_elem _ _ (proj1 (sent_spec _))) in H; discriminate H end. }
  match goal with |- context [produce ?w1] =>
    destruct (produce_spec w1) as (r' & dt & n & Hp); rewrite Hp end.
  run. destruct r' as [y|e]; run.
  2:{ intros [= <- <-]. cbn [trace]. elems.
      match goal with H : _ = call |- _ => symmetry in H; by apply Hcm in H end. }
  destruct (redis_fails E _ || _); run.
  - intros [= <- <-]. cbn [trace memCache redis].
    elems;
      try (match goal with H : _ = call |- _ =>
             symmetry in H; by apply Hcm in H end).
    match goal with H : memCache_set _ _ = memCache_set _ _ |- _ =>
      injection H as -> end.
    eexists _, _. split; [|split; [reflexivity|]]; [lia|].
    split; [by eexists _, _|]. repeat split.
  - rewrite send_spec. run. intros [= <- <-]. cbn [trace memCache redis].
    elems;
      try (match goal with H : _ ∈ sent _ |- _ =>
             apply (output_elem _ _ (proj1 (sent_spec _))) in H; discriminate H end);
      try (match goal with H : _ = call |- _ =>
             symmetry in H; by apply Hcm in H end).
    match goal with H : memCache_set _ _ = memCache_set _ _ |- _ =>
      injection H as -> end.
    eexists _, _. split; [|split; [reflexivity|]]; [lia|].
    split; [by eexists _, _|]. split; [reflexivity|]. eexists. reflexivity.
Qed.

(** When and where a run stores: Redis had nothing to serve when the
    request asked, the local tier is written between the start and the
    end of the request, and Redis holds either what it held or the
    document written at that instant. *)
Lemma shape_store_when (start : N) (w w1 : World) (r : result unit)
    (body : list ascii) :
  trace w = [] ->
  shape start w = (r, w1) ->
  memCache_set key body ∈ trace w1 ->
  JS.truthy (Redis.get (clock w) key (redis w)) = false /\
  exists ts c,
    clock w <= ts /\ ts <= clock w1 /\
    memCache w1 = LRU.set ts key body c /\
    (redis w1 = redis w \/
     redis w1 = Redis.set ts key body seconds (redis w)).
Proof.
  intros Htr. unfold cached_response, cache_get, memCache_get_,
    redis_get_, await.
  run. rewrite Htr. cbn [app].
  destruct (backend_call_facts call call_spec) as [Hco Hcm].
  destruct (LRU.get (clock w) key (memCache w)) as [a c1].
  destruct (JS.truthy a) eqn:Ha; run.
  { rewrite Ha. run. rewrite send_spec. run. intros [= <- <-]. cbn [trace].
    elems.
    match goal with H : _ ∈ sent _ |- _ =>
      apply (output_elem _ _ (proj1 (sent_spec _))) in H; discriminate H end. }
  destruct (redis_fails E (calls w)); run.
  { intros [= <- <-]. cbn [trace]. elems. }
  destruct (JS.truthy (Redis.get (clock w) key (redis w))) eqn:Hv; run.
  { rewrite send_spec. run. intros [= <- <-]. cbn [trace].
    elems.
    match goal with H : _ ∈ sent _ |- _ =>
      apply (output_elem _ _ (proj1 (sent_spec _))) in H; discriminate H end. }
  match goal with |- context [produce ?w1] =>
    destruct (produce_spec w1) as (r' & dt & n & ->) end.
  run. destruct r' as [y|e]; run.
  2:{ intros [= <- <-]. cbn [trace]. elems.
      match goal with H : _ = call |- _ => symmetry in H; by apply Hcm in H end. }
  destruct (redis_fails E _ || _); run.
  - intros [= <- <-]. cbn [trace memCache redis clock].
    elems;
      try (match goal with H : _ = call |- _ =>
             symmetry in H; by apply Hcm in H end).
    match goal with H : memCache_set _ _ = memCache_set _ _ |- _ =>
      injection H as -> end.
    split; [done|]. eexists _, _.
    split; [|split; [|split; [reflexivity|by left]]]; lia.
  - rewrite send_spec. run. intros [= <- <-]. cbn [trace memCache redis clock].
    elems;
      try (match goal with H : _ ∈ sent _ |- _ =>
             apply (output_elem _ _ (proj1 (sent_spec _))) in H; discriminate H end);
      try (match goal with H : _ = call |- _ =>
             symmetry in H; by apply Hcm in H end).
    match goal with H : memCache_set _ _ = memCache_set _ _ |- _ =>
      injection H as -> end.
    split; [done|]. eexists _, _.
    split; [|split; [|split; [reflexivity|by right]]]; lia.
Qed.

(** Neither tier has anything to serve and Redis answers: the producer
    is called. *)
Lemma shape_miss (start : N) (w : World) :
  JS.truthy (fst (LRU.get (clock w) key (memCache w))) = false ->
  redis_fails E (calls w) = false ->
  JS.truthy (Redis.get (clock w) key (redis w)) = false ->
  exists tr,
    trace (snd (shape start w)) =
    trace w ++ [memCache_get key; redis_get key; call] ++ tr.
Proof.
  intros Ha Hup Hv. unfold cached_response, cache_get, memCache_get_,
    redis_get_, await.
  run. destruct (LRU.get (clock w) key (memCache w)) as [a c]. simpl in Ha.
  run. rewrite Ha. run. rewrite Hup. run. rewrite Hv. run.
  match goal with |- context [produce ?w1] =>
    destruct (produce_spec w1) as (r' & dt & n & ->) end.
  run. destruct r' as [y|e]; run.
  2:{ exists []. cbn [snd trace]. by rewrite <- !app_assoc. }
  destruct (redis_fails E _ || _); run.
  - eexists. cbn [snd trace]. rewrite <- !app_assoc. reflexivity.
  - rewrite send_spec. run. eexists. cbn [snd trace]. rewrite <- !app_assoc.
    reflexivity.
Qed.

(** A run that calls the producer and stores nothing: the producer
    failed, and its exception leaves the shape. *)
Lemma shape_backend_failed (start : N) (w w1 : World) (r : result unit) :
  trace w = [] ->
  shape start w = (r, w1) ->
  call ∈ trace w1 ->
  (forall body, memCache_set key body ∉ trace w1) ->
  (exists e, r = Throw e) /\
  memCache w1 = snd (LRU.get (clock w) key (memCache w)) /\
  redis w1 = redis w /\
  trace w1 = [memCache_get key; redis_get key; call].
Proof.
  intros Htr. unfold cached_response, cache_get, memCache_get_,
    redis_get_, await.
  run. rewrite Htr. cbn [app].
  destruct (backend_call_facts call call_spec) as [Hco Hcm].
  assert (Hnot : forall e, is_backend_call e = false -> call <> e).
  { intros e He <-. by rewrite call_spec in He. }
  destruct (LRU.get (clock w) key (memCache w)) as [a c1].
  destruct (JS.truthy a) eqn:Ha; run.
  { rewrite Ha. run. rewrite send_spec. run. intros [= <- <-]. cbn [trace].
    elems;
      try (match goal with H : call = _ |- _ => by apply Hnot in H end).
    match goal with H : _ ∈ sent _ |- _ =>
      apply (output_elem _ _ (proj1 (sent_spec _))) in H end.
    by rewrite Hco in *. }
  destruct (redis_fails E (calls w)); run.
  { intros [= <- <-]. cbn [trace].
    elems; match goal with H : call = _ |- _ => by apply Hnot in H end. }
  destruct (JS.truthy (Redis.get (clock w) key (redis w))) eqn:Hv; run.
  { rewrite send_spec. run. intros [= <- <-]. cbn [trace].
    elems;
      try (match goal with H : call = _ |- _ => by apply Hnot in H end).
    match goal with H : _ ∈ sent _ |- _ =>
      apply (output_elem _ _ (proj1 (sent_spec _))) in H end.
    by rewrite Hco in *. }
  match goal with |- context [produce ?w1] =>
    destruct (produce_spec w1) as (r' & dt & n & ->) end.
  run. destruct r' as [y|e]; run.
  2:{ intros [= <- <-] _ _. cbn [trace memCache redis].
      split; [by eexists|]. by repeat split. }
  destruct (redis_fails E _ || _); run.
  - intros [= <- <-] _ Hno. exfalso. apply (Hno y). cbn [trace].
    rewrite ?elem_of_app, ?elem_of_cons. auto 10.
  - rewrite send_spec. run. intros [= <- <-] _ Hno. exfalso. apply (Hno y).
    cbn [trace]. rewrite ?elem_of_app, ?elem_of_cons. auto 10.
Qed.

(** Every event of a run is one of the shape's own. *)
Lemma shape_events (start : N) (w : World) (e : Event) :
  trace w = [] ->
  e ∈ trace (snd (shape start w)) ->
  e = memCache_get key \/ e = redis_get key \/ e = call \/
  (exists y, e = memCache_set key y) \/
  (exists y, e = redis_set key y seconds /\
             memCache_set key y ∈ trace (snd (shape start w))) \/
  (exists x, e ∈ sent x) \/ (exists el, e = observed label (Status 200) el).
Proof.
  intros Htr. unfold cached_response, cache_get, memCache_get_,
    redis_get_, await.
  run. rewrite Htr. cbn [app].
  destruct (LRU.get (clock w) key (memCache w)) as [a c1].
  destruct (JS.truthy a) eqn:Ha; run.
  { rewrite Ha. run. rewrite send_spec. run. cbn [snd trace].
    elems; subst; eauto 10. }
  destruct (redis_fails E (calls w)); run.
  { cbn [snd trace]. elems; subst; eauto 10. }
  destruct (JS.truthy (Redis.get (clock w) key (redis w))) eqn:Hv; run.
  { rewrite send_spec. run. cbn [snd trace]. elems; subst; eauto 10. }
  match goal with |- context [produce ?w1] =>
    destruct (produce_spec w1) as (r' & dt & n & ->) end.
  run. destruct r' as [y|e']; run.
  2:{ cbn [snd trace]. elems; subst; eauto 10. }
  destruct (redis_fails E _ || _); run.
  - cbn [snd trace]. elems; subst; eauto 10.
    do 4 right. left. exists y. split; [done|]. rewrite ?elem_of_app, ?elem_of_cons. auto 10.
  - rewrite send_spec. run. cbn [snd trace]. elems; subst; eauto 10.
    do 4 right. left. exists y. split; [done|]. rewrite ?elem_of_app, ?elem_of_cons. auto 10.
Qed.

End CachedTraces.

(** ** The cached branches, way by way *)





(** X3. On the same four branches: when the local tier has nothing to
    serve and Redis rejects the lookup, the backend is not called and
    nothing is stored.  [index.js] answers 500 with ['Internal Error']
    and observes the 500; [createBareHandler] rejects with the error
    of Redis, having written no response and observed nothing. *)
Theorem lookup_failure (E : Env) (req : Request) (res : Response)
    (u : list ascii) :
  url req = Some u ->
  on_cached_branches E req res u (fun b =>
    forall w,
      JS.truthy (fst (LRU.get (clock w) (cache_key b) (memCache w))) = false ->
      redis_fails E (calls w) = true ->
      exists w1 el,
        entry b (fresh w) =
          (if guarded b then Ok tt else Throw RedisError, w1) /\
        memCache w1 = snd (LRU.get (clock w) (cache_key b) (memCache w)) /\
        redis w1 = redis w /\
        trace w1 = [memCache_get (cache_key b); redis_get (cache_key b)] ++
                   if guarded b
                   then [writeHead 500 (lit "text/plain; charset=utf-8");
                         end_ (Text (lit "Internal Error"));
                         observed (handler_label b) (Status 500) el]
                   else []).
Proof.
  intros Hu. apply on_cached_branches_intro; [done|same_entry|].
  intros key seconds produce call send_ sent label made Hprod Hyield Hcall Hsend
    Hsent Hev.
  split; cbn [entry guarded cache_key handler_label sends]; intros w Hloc Hdown.
  - rewrite guarded_shape_run,
      (shape_lookup_fails E key seconds produce send_ label _ (fresh w) Hloc Hdown).
    eexists _, _. split; [reflexivity|]. by repeat split.
  - rewrite plain_shape_run,
      (shape_lookup_fails E key seconds produce send_ label _ (fresh w) Hloc Hdown).
    eexists _, 0. split; [reflexivity|]. by repeat split.
Qed.

(** X3 on the decode proxy of both entry points, Redis rejecting the
    first call of the process. *)
Lemma lookup_failure_witness :
  let E := Demo.flaky 0 (Demo.env Demo.page Demo.down) in
  let req := Demo.GET "/proxy/example.com/page" in
  (exists w1 el,
     Index.on_request E req Demo.identity (fresh boot) = (Ok tt, w1) /\
     trace w1 =
     [memCache_get (lit "px:https://example.com/page");
      redis_get (lit "px:https://example.com/page");
      writeHead 500 (lit "text/plain; charset=utf-8");
      end_ (Text (lit "Internal Error"));
      observed (lit "decode") (Status 500) el]) /\
  (exists w1,
     Server.createBareHandler E req Demo.identity (fresh boot)
       = (Throw RedisError, w1) /\
     trace w1 =
     [memCache_get (lit "px:https://example.com/page");
      redis_get (lit "px:https://example.com/page")]).
Proof.
  intros E req.
  destruct (lookup_failure E req Demo.identity
              (lit "/proxy/example.com/page") eq_refl) as [_ Hproxy].
  destruct (Hproxy eq_refl) as [Hindex Hserver].
  destruct (Hindex boot eq_refl eq_refl) as (wi & el & Hi & _ & _ & Hti).
  destruct (Hserver boot eq_refl eq_refl) as (ws & el' & Hs & _ & _ & Hts).
  split.
  - exists wi, el. split; [exact Hi|exact Hti].
  - exists ws. split; [exact Hs|exact Hts].
Defined.



(** X5. On the same four branches: a request that calls its backend and
    writes nothing to the cache is one whose backend failed (the page
    did not load, the upstream was out of reach or its body could not
    be read).  Then Redis is as it was, the local tier is as the lookup
    left it, and nothing of the document is sent: [index.js] answers
    500 with ['Internal Error'] and observes the 500, while
    [createBareHandler] rejects, with no response and no
    observation. *)
Theorem backend_failure (E : Env) (req : Request) (res : Response)
    (u : list ascii) :
  url req = Some u ->
  on_cached_branches E req res u (fun b =>
    forall w w1 r,
      entry b (fresh w) = (r, w1) ->
      backend b ∈ trace w1 ->
      (forall body, memCache_set (cache_key b) body ∉ trace w1) ->
      (if guarded b then r = Ok tt else exists e, r = Throw e) /\
      memCache w1 = snd (LRU.get (clock w) (cache_key b) (memCache w)) /\
      redis w1 = redis w /\
      exists el,
        trace w1 =
        [memCache_get (cache_key b); redis_get (cache_key b); backend b] ++
        if guarded b
        then [writeHead 500 (lit "text/plain; charset=utf-8");
              end_ (Text (lit "Internal Error"));
              observed (handler_label b) (Status 500) el]
        else []).
Proof.
  intros Hu. apply on_cached_branches_intro; [done|same_entry|].
  intros key seconds produce call send_ sent label made Hprod Hyield Hcall Hsend
    Hsent Hev.
  split; cbn [entry guarded cache_key handler_label backend];
    intros w w1 r.
  - rewrite guarded_shape_run.
    destruct (cached_response _ _ _ _ _ _ (fresh w)) as [[[]|e] w'] eqn:Hrun;
      intros [= <- <-] Hin Hno.
    + destruct (shape_backend_failed E key seconds produce call send_ sent label
                  Hprod Hcall Hsend Hsent _ (fresh w) w' (Ok tt)
                  eq_refl Hrun Hin Hno) as ([e He] & _). discriminate He.
    + assert (Hin' : call ∈ trace w').
      { revert Hin. unfold extend. cbn [trace]. rewrite elem_of_app.
        intros [H|H]; [done|]. revert H. elems; subst; discriminate Hcall. }
      assert (Hno' : forall body, memCache_set key body ∉ trace w').
      { intros body H. apply (Hno body). unfold extend. cbn [trace].
        apply elem_of_app. by left. }
      destruct (shape_backend_failed E key seconds produce call send_ sent label
                  Hprod Hcall Hsend Hsent _ (fresh w) w' (Throw e)
                  eq_refl Hrun Hin' Hno') as (_ & Hmem & Hred & Htr).
      split; [done|]. split; [done|]. split; [done|].
      eexists. unfold extend. cbn [trace]. by rewrite Htr.
  - rewrite plain_shape_run. intros Hrun Hin Hno.
    destruct (shape_backend_failed E key seconds produce call send_ sent label
                Hprod Hcall Hsend Hsent _ (fresh w) w1 r
                eq_refl Hrun Hin Hno) as (He & Hmem & Hred & Htr).
    split; [done|]. split; [done|]. split; [done|].
    exists 0. by rewrite Htr, app_nil_r.
Qed.

(** X5 on the decode proxy of [index.js], the upstream out of reach. *)
Lemma backend_failure_witness :
  let E := Demo.env Demo.down Demo.down in
  let req := Demo.GET "/proxy/example.com/page" in
  let w1 := snd (Index.on_request E req Demo.identity (fresh boot)) in
  redis w1 = ∅ /\
  exists el,
    trace w1 =
    [memCache_get (lit "px:https://example.com/page");
     redis_get (lit "px:https://example.com/page");
     fetch (lit "https://example.com/page");
     writeHead 500 (lit "text/plain; charset=utf-8");
     end_ (Text (lit "Internal Error"));
     observed (lit "decode") (Status 500) el].
Proof.
  intros E req w1.
  destruct (backend_failure E req Demo.identity
              (lit "/proxy/example.com/page") eq_refl) as [_ Hproxy].
  destruct (Hproxy eq_refl) as [Hindex _].
  destruct (Hindex boot w1 (fst (Index.on_request E req Demo.identity (fresh boot))))
    as (_ & _ & Hred & el & Htr).
  - apply surjective_pairing.
  - apply list_elem_of_In. vm_compute. tauto.
  - intros body Hin. apply list_elem_of_In in Hin. vm_compute in Hin.
    decompose [or] Hin; try discriminate; done.
  - split; [exact Hred|]. exists el. exact Htr.
Defined.



Lemma own_event_intro (h : M unit) (g : bool) (key label : list ascii)
    (seconds : N) (call : Event) (sent : list ascii -> list Event)
    (made : list ascii -> Prop) (tr0 tr : list Event) (e : Event) :
  is_backend_call call = true ->
  (forall x e, e ∈ sent x ->
     (exists n v, e = setHeader n v) \/ e = end_ (Text x) \/
     (exists bs, e = end_ (Bytes bs))) ->
  (forall y, memCache_set key y ∈ tr0 -> memCache_set key y ∈ tr) ->
  e = memCache_get key \/ e = redis_get key \/ e = call \/
  (exists y, e = memCache_set key y) \/
  (exists y, e = redis_set key y seconds /\ memCache_set key y ∈ tr0) \/
  (exists x, e ∈ sent x) \/ (exists el, e = observed label (Status 200) el) ->
  own_event (Build_Branch h g key label seconds call sent made) tr e.
Proof.
  intros Hcall Hev Hsub H.
  destruct H as [->|[->|[->|[[y ->]|[(y & -> & Hy)|[[x Hx]|[el ->]]]]]]];
    cbn; auto.
  - destruct call; try discriminate; reflexivity.
  - destruct (Hev _ _ Hx) as [(n & v & ->)|[->|(bs & ->)]]; exact I.
Qed.

(** X7. On the same four branches, whatever happens: every lookup and
    every write of a request is made under the request's own key;
    Redis is written with the expiry of the branch and only what the
    local tier was given in the same request; the only backend called
    is the branch's own, for its own target; every observation carries
    the label of the branch, with code 200 or, in [index.js] only, 500;
    a status line is written only by the [catch] block; the request is
    never handed to the tunnel adapter or to serve-static, and the
    metrics exposition is never written. *)
Theorem cached_branch_events (E : Env) (req : Request) (res : Response)
    (u : list ascii) :
  url req = Some u ->
  on_cached_branches E req res u (fun b =>
    forall w e,
      e ∈ trace (snd (entry b (fresh w))) ->
      own_event b (trace (snd (entry b (fresh w)))) e).
Proof.
  intros Hu. apply on_cached_branches_intro; [done|same_entry|].
  intros key seconds produce call send_ sent label made Hprod Hyield Hcall Hsend
    Hsent Hev.
  split; cbn [entry]; intros w e.
  - rewrite guarded_shape_run.
    pose proof (shape_events E key seconds produce call send_ sent label
                  Hprod Hsend (clock (fresh w)) (fresh w) e eq_refl) as Hall.
    destruct (cached_response _ _ _ _ _ _ (fresh w)) as [[[]|err] w'];
      cbn [snd] in *.
    + intros Hin. by apply (own_event_intro _ _ _ _ _ _ _ _ (trace w')); auto.
    + unfold extend. cbn [trace]. rewrite elem_of_app. intros [Hin|Hin].
      * apply (own_event_intro _ _ _ _ _ _ _ _ (trace w')); auto.
        intros y Hy. apply elem_of_app. by left.
      * revert Hin. elems; subst; cbn; auto.
  - rewrite plain_shape_run. intros Hin.
    apply (own_event_intro _ _ _ _ _ _ _ _
             (trace (snd (cached_response E key seconds produce send_
                            (observe label (clock (fresh w))) (fresh w)))));
      auto.
    apply (shape_events E key seconds produce call send_ sent label
             Hprod Hsend (clock (fresh w)) (fresh w) e eq_refl Hin).
Qed.

(** X7 on a first proxied page in [index.js]: the write to Redis is
    made under the request's key, for sixty seconds, of the document
    the local tier was given. *)
Lemma cached_branch_events_witness :
  let E := Demo.env Demo.page
             (Demo.origin (Some (lit "text/html")) [Byte.x68; Byte.x69]) in
  let req := Demo.GET "/proxy/example.com/page" in
  let tr := trace (snd (Index.on_request E req Demo.identity (fresh boot))) in
  lit "px:https://example.com/page" = lit "px:" ++ Index.proxy_target (lit "/proxy/example.com/page") /\
  60 = 60 /\
  memCache_set (lit "px:https://example.com/page") (lit "hi") ∈ tr.
Proof.
  intros E req tr.
  destruct (cached_branch_events E req Demo.identity
              (lit "/proxy/example.com/page") eq_refl) as [_ Hproxy].
  destruct (Hproxy eq_refl) as [Hindex _].
  apply (Hindex boot (redis_set (lit "px:https://example.com/page") (lit "hi") 60)).
  apply list_elem_of_In. vm_compute. tauto.
Defined.

(** The expiry that the four branches give to Redis does not exceed
    the TTL of the local tier, and what their backends hand on has
    been rewritten. *)
Lemma on_cached_branches_facts (E : Env) (req : Request) (res : Response)
    (u : list ascii) (P Q : Branch -> Prop) :
  (forall b,
     remote_ttl b * 1000 <= LRU.ttl ->
     (forall y, document b y -> rewrite_meta y = y) ->
     P b -> Q b) ->
  on_cached_branches E req res u P -> on_cached_branches E req res u Q.
Proof.
  intros HPQ [Hrender Hproxy]. split.
  - intros t Hp Hne. destruct (Hrender t Hp Hne) as [Hi Hs].
    split; intros Ht;
      (apply HPQ; [by vm_compute|apply rendered_rewritten|auto]).
  - intros Hp. destruct (Hproxy Hp) as [Hi Hs].
    split; (apply HPQ; [by vm_compute|apply proxied_rewritten|auto]).
Qed.

(** X8. On the same four branches: a document that a request writes to
    the cache is what its backend handed on.  On the render branch it
    is the serialisation of the page as some load of the target gave
    it, on the decode proxy the body of some answer of the upstream,
    decoded; in both, with the charset declaration rewritten, so that
    the rewrite leaves the cached document as it is. *)
Theorem stored_document_rewritten (E : Env) (req : Request) (res : Response)
    (u : list ascii) :
  url req = Some u ->
  on_cached_branches E req res u (fun b =>
    forall w body,
      memCache_set (cache_key b) body ∈ trace (snd (entry b (fresh w))) ->
      document b body /\ rewrite_meta body = body).
Proof.
  intros Hu.
  apply (on_cached_branches_facts E req res u (fun b =>
    forall w body,
      memCache_set (cache_key b) body ∈ trace (snd (entry b (fresh w))) ->
      document b body)); [by eauto|].
  apply on_cached_branches_intro; [done|same_entry|].
  intros key seconds produce call send_ sent label made Hprod Hyield Hcall Hsend
    Hsent Hev.
  split; cbn [entry cache_key document]; intros w body.
  - rewrite guarded_shape_run.
    destruct (cached_response _ _ _ _ _ _ (fresh w)) as [[[]|e] w'] eqn:Hrun;
      cbn [snd].
    + intros Hin.
      destruct (shape_store E key seconds produce call send_ sent label
                  Hprod Hcall Hsend Hsent _ (fresh w) w' (Ok tt) body
                  eq_refl Hrun Hin) as (_ & _ & _ & _ & (wa & wb & Hp) & _).
      by apply (Hyield wa body wb).
    + unfold extend. cbn [trace]. rewrite elem_of_app. intros [Hin|Hin].
      * destruct (shape_store E key seconds produce call send_ sent label
                    Hprod Hcall Hsend Hsent _ (fresh w) w' (Throw e) body
                    eq_refl Hrun Hin) as (_ & _ & _ & _ & (wa & wb & Hp) & _).
        by apply (Hyield wa body wb).
      * revert Hin. elems.
  - rewrite plain_shape_run. intros Hin.
    destruct (shape_store E key seconds produce call send_ sent label
                Hprod Hcall Hsend Hsent _ (fresh w) _ _ body
                eq_refl (surjective_pairing _) Hin)
      as (_ & _ & _ & _ & (wa & wb & Hp) & _).
    by apply (Hyield wa body wb).
Qed.

(** X8 on a page proxied by [createBareHandler]: the declaration of
    the stored document is the canonical one. *)
Lemma stored_document_rewritten_witness :
  let E := Demo.env Demo.page
             (Demo.origin (Some (lit "text/html; charset=iso-8859-1"))
                (Demo.ascii_encode (lit "<meta charset=latin1><p>hi</p>"))) in
  let req := Demo.GET "/proxy/example.com/page" in
  let tr := trace (snd (Server.createBareHandler E req Demo.identity (fresh boot))) in
  memCache_set (lit "px:https://example.com/page") (meta_utf8 ++ lit "<p>hi</p>")
    ∈ tr /\
  proxied E (lit "https://example.com/page") (meta_utf8 ++ lit "<p>hi</p>") /\
  rewrite_meta (meta_utf8 ++ lit "<p>hi</p>") = meta_utf8 ++ lit "<p>hi</p>".
Proof.
  intros E req tr.
  assert (Hin : memCache_set (lit "px:https://example.com/page")
                  (meta_utf8 ++ lit "<p>hi</p>") ∈ tr)
    by (apply list_elem_of_In; vm_compute; tauto).
  split; [exact Hin|].
  destruct (stored_document_rewritten E req Demo.identity
              (lit "/proxy/example.com/page") eq_refl) as [_ Hproxy].
  destruct (Hproxy eq_refl) as [_ Hserver].
  exact (Hserver boot _ Hin).
Defined.

Lemma Redis_get_later (now later : N) (k : list ascii) (db : Redis.t) :
  now <= later ->
  JS.truthy (Redis.get now k db) = false ->
  JS.truthy (Redis.get later k db) = false.
Proof.
  intros Hle. unfold Redis.get. destruct (db !! k) as [[v d]|]; [|done].
  destruct (N.leb_spec now d), (N.leb_spec later d); try done. lia.
Qed.

Lemma Redis_get_expired (ts later : N) (k v : list ascii) (seconds : N)
    (db : Redis.t) :
  ts + seconds * 1000 < later ->
  Redis.get later k (Redis.set ts k v seconds db) = None.
Proof.
  intros Hlt. unfold Redis.get, Redis.set. rewrite lookup_insert_eq.
  destruct (N.leb_spec later (ts + seconds * 1000)); [lia|done].
Qed.

Lemma LRU_get_expired (ts later : N) (k v : list ascii) (c : LRU.t) :
  ts + LRU.ttl < later ->
  fst (LRU.get later k (LRU.set ts k v c)) = None.
Proof.
  intros Hlt. unfold LRU.get. rewrite LRU_find_set. unfold LRU.stale. simpl.
  destruct (N.ltb_spec LRU.ttl (later - ts)) as [_|Hle]; [done|lia].
Qed.

(** X9. On the same four branches: once more than the local TTL (two
    minutes) has passed since the end of a request that wrote a
    document to the cache, neither tier serves it any longer, whether
    or not Redis had taken the write, since the branches give Redis an
    expiry shorter than that: an identical request, if Redis answers
    its lookup, asks both tiers and calls the backend again. *)
Theorem expired_document_refetched (E : Env) (req : Request) (res : Response)
    (u : list ascii) :
  url req = Some u ->
  on_cached_branches E req res u (fun b =>
    forall w w1 r body gap,
      entry b (fresh w) = (r, w1) ->
      memCache_set (cache_key b) body ∈ trace w1 ->
      LRU.ttl < gap ->
      redis_fails E (calls w1) = false ->
      exists tr,
        trace (snd (entry b (fresh (idle gap w1)))) =
        [memCache_get (cache_key b); redis_get (cache_key b); backend b] ++ tr).
Proof.
  intros Hu.
  apply (on_cached_branches_facts E req res u (fun b =>
    remote_ttl b * 1000 <= LRU.ttl ->
    forall w w1 r body gap,
      entry b (fresh w) = (r, w1) ->
      memCache_set (cache_key b) body ∈ trace w1 ->
      LRU.ttl < gap ->
      redis_fails E (calls w1) = false ->
      exists tr,
        trace (snd (entry b (fresh (idle gap w1)))) =
        [memCache_get (cache_key b); redis_get (cache_key b); backend b] ++ tr));
    [intros b Hb _ HP; exact (HP Hb)|].
  apply on_cached_branches_intro; [done|same_entry|].
  intros key seconds produce call send_ sent label made Hprod Hyield Hcall Hsend
    Hsent Hev.
  assert (Hmiss : forall w w1 r body gap start start',
            seconds * 1000 <= LRU.ttl ->
            cached_response E key seconds produce send_ (observe label start)
              (fresh w) = (r, w1) ->
            memCache_set key body ∈ trace w1 ->
            LRU.ttl < gap ->
            redis_fails E (calls w1) = false ->
            exists tr,
              trace (snd (cached_response E key seconds produce send_
                            (observe label start') (fresh (idle gap w1)))) =
              [memCache_get key; redis_get key; call] ++ tr).
  { intros w w1 r body gap start start' Hsec Hrun Hin Hgap Hup.
    destruct (shape_store_when E key seconds produce call send_ sent label
                Hprod Hcall Hsend Hsent start (fresh w) w1 r body eq_refl Hrun Hin)
      as (Hv & ts & c & Hts & Hts1 & Hmem & Hred).
    apply (shape_miss E key seconds produce call send_ sent label Hprod Hsend
             start' (fresh (idle gap w1)));
      cbn [fresh idle clock calls memCache redis]; [|done|].
    - rewrite Hmem, LRU_get_expired; [done|lia].
    - destruct Hred as [-> | ->].
      + apply (Redis_get_later (clock w)); [cbn [fresh clock] in Hts; lia|done].
      + rewrite Redis_get_expired; [done|lia]. }
  split; cbn [entry guarded cache_key handler_label remote_ttl backend sends];
    intros Hsec w w1 r body gap.
  - rewrite guarded_shape_run.
    destruct (cached_response _ _ _ _ _ _ (fresh w)) as [[[]|e] w'] eqn:Hrun;
      intros Heq Hin Hgap Hup; apply (f_equal snd) in Heq;
      cbn [snd] in Heq; subst w1.
    + destruct (Hmiss w w' _ body gap _ (clock (fresh (idle gap w')))
                  Hsec Hrun Hin Hgap Hup) as [tr Htr].
      apply (guarded_prefix _ _ _ (fresh (idle gap w'))). by exists tr.
    + assert (Hin' : memCache_set key body ∈ trace w').
      { revert Hin. unfold extend. cbn [trace]. rewrite elem_of_app.
        intros [H|H]; [done|]. revert H. elems. }
      destruct (Hmiss w w' _ body gap _
                  (clock (fresh (idle gap w'))) Hsec Hrun Hin' Hgap Hup)
        as [tr Htr].
      apply (guarded_prefix _ _ _
               (fresh (idle gap (extend w' _)))).
      by exists tr.
  - rewrite plain_shape_run. intros Hrun Hin Hgap Hup.
    rewrite plain_shape_run. by apply (Hmiss w w1 r body gap _ _ Hsec Hrun).
Qed.

(** X9 on a page rendered at start-up and asked for again two minutes
    and a millisecond after the first response. *)
Lemma expired_document_refetched_witness :
  let E := Demo.env Demo.page Demo.down in
  let req := Demo.GET "/puppeteer?url=https://example.com" in
  let h := Index.on_request E req Demo.identity in
  exists tr,
    trace (snd (h (fresh (idle 120001 (snd (h (fresh boot))))))) =
    [memCache_get (lit "pp:https://example.com");
     redis_get (lit "pp:https://example.com");
     execute (lit "https://example.com")] ++ tr.
Proof.
  intros E req h.
  destruct (expired_document_refetched E req Demo.identity
              (lit "/puppeteer?url=https://example.com") eq_refl) as [Hrender _].
  assert (Hne : lit "https://example.com" <> []) by discriminate.
  destruct (Hrender (lit "https://example.com") eq_refl Hne) as [Hindex _].
  apply (Hindex eq_refl boot (snd (h (fresh boot))) (fst (h (fresh boot)))
           (rewrite_meta (lit "<html><head><meta charset=euc-jp></head><body>hi</body></html>"))
           120001).
  - apply surjective_pairing.
  - apply list_elem_of_In. vm_compute. tauto.
  - reflexivity.
  - reflexivity.
Defined.

(** ** The branches without a cache *)

(** X10. A request that no other branch takes and that serve-static
    fails on is answered by the callback, in both entry points alike:
    the status is the error's [statusCode] when it has one that is not
    zero, and 404 otherwise; the body is the error's [stack] when it
    has one that is not empty, and ['Not Found'] otherwise; one
    observation records that status under the label ['static'].  The
    status is never zero and the body never empty; no cache is
    touched. *)
Theorem static_miss_answered (E : Env) (req : Request) (res : Response)
    (u : list ascii) (w : World) (err : option HttpError) :
  url req = Some u ->
  JS.startsWith u (lit "/puppeteer?") = false ->
  JS.startsWith u (lit "/proxy/") = false ->
  shouldRoute E req = false ->
  u <> lit "/metrics" ->
  serveStatic E req = Failed err ->
  (forall h, h = Index.on_request E req res \/
             h = Server.createBareHandler E req res ->
     exists w',
       h (fresh w) = (Ok tt, w') /\
       output (trace w') =
         [writeHead (static_code err) (lit "text/plain; charset=utf-8");
          end_ (Text (static_body err))] /\
       observations (trace w') = [(lit "static", Status (static_code err))] /\
       memCache w' = memCache w /\ redis w' = redis w) /\
  static_code err <> 0 /\ static_body err <> [] /\
  (static_code err = 404 \/ err ≫= statusCode = Some (static_code err)) /\
  (static_body err = lit "Not Found" \/ err ≫= stack = Some (static_body err)).
Proof.
  intros Hu Hp Hx Hr Hm Hs. split.
  - intros h [-> | ->].
    + unfold Index.on_request, Index.handler, Index.metrics_listener,
        Index.handler_of.
      cbv zeta. rewrite Hu. cbn [default from_option id]. rewrite Hp, Hx, Hr, Hs.
      rewrite bool_decide_eq_false_2 by congruence.
      step. eexists. split; [reflexivity|]. by repeat split.
    + unfold Server.createBareHandler, Server.handler_of.
      cbv zeta. rewrite Hu. cbn [default from_option id]. rewrite Hp, Hx, Hr, Hs.
      rewrite (bool_decide_eq_false_2 (u = lit "/metrics")) by done.
      labels. step. eexists. split; [reflexivity|]. by repeat split.
  - unfold static_code, static_body.
    destruct (err ≫= statusCode) as [n|]; destruct (err ≫= stack) as [[|c s]|];
      try destruct (N.eqb_spec n 0); repeat split; auto; try discriminate;
      try lia.
Qed.

(** X10 on a file that does not exist, asked of [createBareHandler]. *)
Lemma static_miss_answered_witness :
  let E := Demo.env Demo.page Demo.down in
  let req := Demo.GET "/missing.css" in
  exists w',
    Server.createBareHandler E req Demo.identity (fresh boot) = (Ok tt, w') /\
    output (trace w') =
      [writeHead 404 (lit "text/plain; charset=utf-8");
       end_ (Text (lit "NotFoundError: Not Found"))] /\
    observations (trace w') = [(lit "static", Status 404)].
Proof.
  intros E req.
  assert (Hm : lit "/missing.css" <> lit "/metrics") by discriminate.
  destruct (static_miss_answered E req Demo.identity (lit "/missing.css") boot
              (Some Demo.not_found) eq_refl eq_refl eq_refl eq_refl Hm eq_refl)
    as (Hh & _).
  destruct (Hh (Server.createBareHandler E req Demo.identity) (or_intror eq_refl))
    as (w' & Hrun & Hout & Hobs & _).
  exists w'. split; [exact Hrun|]. split; [exact Hout|exact Hobs].
Defined.

(** X11 on a file that exists. *)
Lemma static_hit_unobserved_witness :
  let E := Demo.env Demo.page Demo.down in
  let req := Demo.GET "/index.html" in
  Index.on_request E req Demo.identity boot
    = (Ok tt, extend boot [serve; static_served]) /\
  Server.createBareHandler E req Demo.identity boot
    = (Ok tt, extend boot [serve; static_served]).
Proof.
  intros E req.
  assert (Hm : lit "/index.html" <> lit "/metrics") by discriminate.
  exact (static_hit_unobserved E req Demo.identity (lit "/index.html") boot
           eq_refl eq_refl eq_refl eq_refl Hm eq_refl).
Defined.

(** X12 on a tunnel request whose stream has responded by the time
    [routeRequest] returns. *)
Lemma tunnel_observed_witness :
  let E := Demo.env Demo.page Demo.down in
  let req := Demo.GET "/bare/v3/" in
  let res := {| socket_encrypted := true; httpMessage_accept_encoding := None;
                serverResponse := None; stream_responded := true |} in
  Index.on_request E req res boot
    = (Ok tt, extend boot [routeRequest; observed (lit "bare") StreamState 0]) /\
  Server.createBareHandler E req res boot
    = (Ok tt, extend boot [routeRequest; observed (lit "bare") (Status 200) 0]).
Proof.
  intros E req res.
  assert (Hm : lit "/bare/v3/" <> lit "/metrics") by discriminate.
  exact (tunnel_observed E req res (lit "/bare/v3/") boot
           eq_refl eq_refl eq_refl eq_refl Hm).
Defined.

(** X13. [createBareHandler] answers a request for ['/metrics'] that
    the tunnel adapter does not own with the exposition of the
    registry, under the registry's content type, and observes a 200
    under the label ['metrics']; no cache is touched. *)
Theorem server_metrics_exposed (E : Env) (req : Request) (res : Response)
    (w : World) :
  url req = Some (lit "/metrics") ->
  shouldRoute E req = false ->
  exists w',
    Server.createBareHandler E req res (fresh w) = (Ok tt, w') /\
    output (trace w') =
      [setHeader (lit "Content-Type") (register_contentType E); end_ Exposition] /\
    observations (trace w') = [(lit "metrics", Status 200)] /\
    memCache w' = memCache w /\ redis w' = redis w.
Proof.
  intros Hu Hr. unfold Server.createBareHandler, Server.handler_of.
  cbv zeta. rewrite Hu. cbn [default from_option id]. rewrite Hr.
  change (JS.startsWith (lit "/metrics") (lit "/puppeteer?")) with false.
  change (JS.startsWith (lit "/metrics") (lit "/proxy/")) with false.
  cbv iota. labels. step. eexists. split; [reflexivity|]. by repeat split.
Qed.

(** X13 on a process that has just started. *)
Lemma server_metrics_exposed_witness :
  let E := Demo.env Demo.page Demo.down in
  exists w',
    Server.createBareHandler E (Demo.GET "/metrics") Demo.identity (fresh boot)
      = (Ok tt, w') /\
    output (trace w') =
      [setHeader (lit "Content-Type")
         (lit "text/plain; version=0.0.4; charset=utf-8");
       end_ Exposition] /\
    observations (trace w') = [(lit "metrics", Status 200)] /\
    memCache w' = LRU.empty /\ redis w' = ∅.
Proof.
  intros E.
  exact (server_metrics_exposed E (Demo.GET "/metrics") Demo.identity boot
           eq_refl eq_refl).
Defined.

(** ** Every request *)

Lemma truthy_inv (v : option (list ascii)) :
  JS.truthy v = true -> exists t, v = Some t /\ t <> [].
Proof. destruct v as [[|c t]|]; try discriminate. by eexists. Qed.

Lemma startsWith_nil (p : list ascii) : p <> [] -> JS.startsWith [] p = false.
Proof. by destruct p. Qed.


(** X15. [createBareHandler] either finishes the response once, or
    rejects having finished none and observed nothing; it rejects only
    on the render branch and on the decode proxy.  When it returns, it
    has recorded at most one observation, under the label computed for
    the request, and none exactly when serve-static has sent a file. *)
Theorem server_answers_or_rejects (E : Env) (req : Request) (res : Response)
    (w : World) :
  exists r w',
    Server.createBareHandler E req res (fresh w) = (r, w') /\
    match r with
    | Ok _ =>
        count is_response (trace w') = 1%nat /\
        ((observations (trace w') = [] /\
          Server.handler_of E req = lit "static" /\ serveStatic E req = Served) \/
         (exists c, observations (trace w') = [(Server.handler_of E req, c)]))
    | Throw _ =>
        count is_response (trace w') = 0%nat /\
        observations (trace w') = [] /\
        (Server.handler_of E req = lit "puppeteer" \/
         Server.handler_of E req = lit "decode")
    end.
Proof.
  destruct (JS.startsWith (default [] (url req)) (lit "/puppeteer?")) eqn:Hp.
  { destruct (url req) as [u|] eqn:Hu; [|discriminate Hp].
    cbn [default from_option id] in Hp.
    assert (Hl : Server.handler_of E req = lit "puppeteer").
    { unfold Server.handler_of. cbv zeta. rewrite Hu.
      cbn [default from_option id]. by rewrite Hp. }
    rewrite Hl.
    destruct (JS.truthy (searchParams_get E (lit "http://x" ++ u) (lit "url")))
      eqn:Ht.
    - apply truthy_inv in Ht as (t & Ht & Hne).
      destruct (render_branch_outcome E req res u t w Hu Hp Hne) as [_ Hs].
      destruct (Hs Ht) as (r & w' & Hrun & Hr).
      exists r, w'. split; [done|].
      destruct r as [[]|e]; destruct Hr as [Hn Ho]; eauto 6.
    - unfold Server.createBareHandler, Server.puppeteer. rewrite Hl.
      cbv zeta. rewrite Hu. cbn [default from_option id]. rewrite Ht.
      labels. step. eexists _, _. split; [reflexivity|]. split; [reflexivity|].
      right. eexists. reflexivity. }
  destruct (JS.startsWith (default [] (url req)) (lit "/proxy/")) eqn:Hx.
  { destruct (url req) as [u|] eqn:Hu; [|discriminate Hx].
    cbn [default from_option id] in Hp, Hx.
    assert (Hl : Server.handler_of E req = lit "decode").
    { unfold Server.handler_of. cbv zeta. rewrite Hu.
      cbn [default from_option id]. by rewrite Hp, Hx. }
    rewrite Hl.
    destruct (proxy_branch_outcome E req res u w Hu Hx) as [_ Hs].
    destruct Hs as (r & w' & Hrun & Hr).
    exists r, w'. split; [done|].
    destruct r as [[]|e]; destruct Hr as [Hn Ho]; eauto 6. }
  unfold Server.createBareHandler, Server.handler_of.
  cbv zeta. rewrite Hp, Hx.
  destruct (shouldRoute E req) eqn:Hr.
  - labels. step. eexists _, _. split; [reflexivity|]. split; [reflexivity|].
    right. eexists. reflexivity.
  - destruct (bool_decide (default [] (url req) = lit "/metrics")) eqn:Hm; labels.
    + step. eexists _, _. split; [reflexivity|]. split; [reflexivity|].
      right. eexists. reflexivity.
    + destruct (serveStatic E req) as [|err] eqn:Hs; step; eexists _, _;
        (split; [reflexivity|]); (split; [reflexivity|]);
        solve [left; auto | right; eexists; reflexivity].
Qed.

(** X16. The two entry points label a request alike, except that
    [createBareHandler] has the label ['metrics'], which it gives to
    ['/metrics'] when the tunnel adapter does not own it, and which the
    handler of [index.js] never gives: there such a request counts as
    ['static']. *)
Theorem handler_labels (E : Env) (req : Request) :
  (Server.handler_of E req = Index.handler_of E req \/
   (Server.handler_of E req = lit "metrics" /\
    Index.handler_of E req = lit "static")) /\
  (Server.handler_of E req = lit "metrics" <->
   url req = Some (lit "/metrics") /\ shouldRoute E req = false) /\
  Index.handler_of E req <> lit "metrics".
Proof.
  unfold Server.handler_of, Index.handler_of. cbv zeta.
  destruct (JS.startsWith (default [] (url req)) (lit "/puppeteer?")) eqn:Hp.
  { split; [by left|]. split; [|discriminate]. split; [discriminate|].
    intros [Hu _]. rewrite Hu in Hp. discriminate Hp. }
  destruct (JS.startsWith (default [] (url req)) (lit "/proxy/")) eqn:Hx.
  { split; [by left|]. split; [|discriminate]. split; [discriminate|].
    intros [Hu _]. rewrite Hu in Hx. discriminate Hx. }
  destruct (shouldRoute E req).
  { split; [by left|]. split; [|discriminate]. split; [discriminate|].
    intros [_ Hr]. discriminate Hr. }
  case_bool_decide as Hm.
  - split; [by right|]. split; [|discriminate]. split; [|done].
    intros _. split; [|done]. destruct (url req) as [u|]; [|discriminate Hm].
    by rewrite <- Hm.
  - split; [by left|]. split; [|discriminate]. split; [discriminate|].
    intros [Hu _]. by rewrite Hu in Hm.
Qed.

(** ** The two patterns *)

Lemma includes_unfold (s p : list ascii) :
  JS.includes s p =
  JS.startsWith s p || match s with [] => false | _ :: s' => JS.includes s' p end.
Proof. by destruct s. Qed.

Lemma includes_app (a p b : list ascii) : JS.includes (a ++ p ++ b) p = true.
Proof.
  induction a as [|c a IH]; rewrite includes_unfold; cbn [app].
  - by rewrite startsWith_app.
  - rewrite IH. apply orb_true_r.
Qed.

(** X17. What the meta-charset rewrite does to a document.  Either no
    part of the document is matched by the pattern, and the document
    is returned as it is.  Or the document is cut at the leftmost
    match, which ends with the first [>] that follows its start; that
    one match is replaced by [<meta charset="utf-8">], the text before
    and the text after are kept as they are (later declarations
    included), and the result declares UTF-8. *)
Theorem rewrite_meta_first_declaration (d : list ascii) :
  (rewrite_meta d = d /\
   forall pre m post,
     d = pre ++ m ++ post -> ~ Regex.matches true (Regex.atoms re_meta) m) \/
  (exists pre m post,
     d = pre ++ m ++ post /\
     Regex.matches true (Regex.atoms re_meta) m /\
     (exists x, m = x ++ [">"%char] /\ Forall (fun c => c <> ">"%char) x) /\
     (forall pre' m' post',
        d = pre' ++ m' ++ post' ->
        Regex.matches true (Regex.atoms re_meta) m' ->
        (length pre <= length pre')%nat) /\
     rewrite_meta d = pre ++ meta_utf8 ++ post /\
     declares_utf8 (rewrite_meta d) = true).
Proof.
  rewrite rewrite_meta_unfold.
  destruct (Regex.search_from true (Regex.atoms re_meta) d) as [[i ls]|] eqn:Hs.
  - right. apply search_from_Some in Hs as (Hi & Hle & Hlt).
    destruct (match_here_sound _ _ _ _ Hi) as (_ & m & post & Hd & Hm & Hlen).
    exists (take i d), m, post.
    assert (Hpost : drop (i + sum_list ls) d = post).
    { by rewrite <- drop_drop, Hd, <- Hlen, drop_app_length. }
    split; [by rewrite <- Hd, take_drop|]. split; [done|].
    split; [by apply meta_ends|]. split; [|split].
    + intros pre' m' post' Heq Hm'.
      destruct (decide (length pre' < i)%nat) as [Hlt'|Hge];
        [|rewrite length_take; lia].
      specialize (Hlt _ Hlt'). rewrite Heq, drop_app_length in Hlt.
      destruct (match_here_complete true _ _ Hm' post') as [ls' Hls'].
      rewrite Hls' in Hlt. discriminate Hlt.
    + by rewrite Hpost.
    + rewrite Hpost. unfold declares_utf8, JS.toLowerCase.
      rewrite !map_app. change (map JS.lower meta_utf8) with meta_utf8.
      rewrite includes_app. apply orb_true_r.
  - left. split; [done|]. by apply search_none_iff.
Qed.

Section Charset.

Import Regex.

Context (ci : bool).

(** A literal prefix of a pattern takes one character per atom. *)
Lemma match_here_lits (l : list ascii) (p : list atom) :
  forall s ls,
    match_here ci (map Lit l ++ p) s = Some ls ->
    exists C s' ls',
      s = C ++ s' /\ Forall2 (fun c d => char_eq ci c d = true) l C /\
      match_here ci p s' = Some ls' /\ ls = repeat 1%nat (length l) ++ ls'.
Proof.
  induction l as [|c l IH]; intros s ls H.
  - exists [], s, ls. repeat split; [constructor|done].
  - cbn [map app match_here] in H. destruct s as [|d s]; [discriminate|].
    destruct (char_eq ci c d) eqn:Hc; [|discriminate].
    destruct (match_here ci (map Lit l ++ p) s) as [ls0|] eqn:Hm; [|discriminate].
    injection H as <-.
    destruct (IH _ _ Hm) as (C & s' & ls' & -> & HC & Hp & ->).
    exists (d :: C), s', ls'. repeat split; [by constructor|done].
Qed.

(** A run [[^c]+] that ends the pattern fails only where no character
    can be taken. *)
Lemma match_here_run_None (c : ascii) (s : list ascii) :
  match_here ci [PlusNot c] s = None -> s = [] \/ exists r, s = c :: r.
Proof.
  destruct s as [|d s]; [by left|]. rewrite match_here_plus_cons.
  destruct (Ascii.eqb_spec d c) as [->|Hd]; [right; by eexists|].
  by destruct (match_here ci [PlusNot c] s) as [[|n ns]|].
Qed.

(** It is greedy: it takes every character up to the next [c], or to
    the end of the text. *)
Lemma match_here_run (c : ascii) (s : list ascii) (ls : list nat) :
  match_here ci [PlusNot c] s = Some ls ->
  exists n,
    ls = [n] /\ take n s <> [] /\ Forall (fun d => d <> c) (take n s) /\
    (drop n s = [] \/ exists r, drop n s = c :: r).
Proof.
  revert ls. induction s as [|d s IH]; intros ls; [discriminate|].
  rewrite match_here_plus_cons.
  destruct (Ascii.eqb_spec d c) as [->|Hd]; [discriminate|].
  destruct (match_here ci [PlusNot c] s) as [ls0|] eqn:Hm.
  - destruct (IH _ eq_refl) as (n & -> & Hne & Hall & Hrest).
    intros [= <-]. exists (S n). cbn [take drop].
    repeat split; [done|by constructor|done].
  - intros [= <-]. exists 1%nat. cbn [take drop]. rewrite take_0, drop_0.
    repeat split; [done|by repeat constructor|by apply match_here_run_None].
Qed.

End Charset.

Lemma content_type_or_empty (rsp : FetchResponse) :
  default [] (JS.or_else (content_type rsp) (Some [])) = default [] (content_type rsp).
Proof. by destruct (content_type rsp) as [[|c s]|]. Qed.

(** X18. The charset label read from the upstream [Content-Type].  When
    there is one, it is the text that follows the leftmost occurrence
    of [charset=] (in any letter case) that some character other than
    [;] follows: all of it up to the next [;] or to the end of the
    header, so that it is not empty, holds no [;], and keeps any quote
    or space that the header has there.  There is none exactly when
    every occurrence of [charset=] is followed by [;] or ends the
    header. *)
Theorem charset_label (rsp : FetchResponse) :
  let ct := default [] (content_type rsp) in
  let ci_eq := fun c d : ascii => Regex.char_eq true c d = true in
  match charset_match rsp with
  | Some g =>
      exists pre C post,
        ct = pre ++ C ++ g ++ post /\
        Forall2 ci_eq (lit "charset=") C /\
        g <> [] /\ Forall (fun c => c <> ";"%char) g /\
        (post = [] \/ exists post', post = ";"%char :: post') /\
        (forall pre' C' c' post',
           ct = pre' ++ C' ++ c' :: post' ->
           Forall2 ci_eq (lit "charset=") C' -> c' <> ";"%char ->
           (length pre <= length pre')%nat)
  | None =>
      forall pre C c post,
        ct = pre ++ C ++ c :: post ->
        Forall2 ci_eq (lit "charset=") C -> c = ";"%char
  end.
Proof.
  intros ct ci_eq. unfold charset_match. rewrite content_type_or_empty.
  fold ct. unfold Regex.group, Regex.exec. cbn [re_charset Regex.anchored
    Regex.ignoreCase Regex.atoms]. unfold Regex.lits.
  assert (Hfound : forall pre' C' c' post',
            ct = pre' ++ C' ++ c' :: post' ->
            Forall2 ci_eq (lit "charset=") C' -> c' <> ";"%char ->
            is_Some (Regex.match_here true
                       (map Regex.Lit (lit "charset=") ++ [Regex.PlusNot ";"])
                       (drop (length pre') ct))).
  { intros pre' C' c' post' -> HC Hc. rewrite drop_app_length.
    change (C' ++ c' :: post') with (C' ++ [c'] ++ post').
    rewrite app_assoc. apply match_here_complete.
    apply matches_lits_intro; [done|].
    rewrite <- (app_nil_r [c']). constructor; [done|by repeat constructor|constructor]. }
  destruct (Regex.search_from true _ ct) as [[i ls]|] eqn:Hs.
  - apply search_from_Some in Hs as (Hi & Hle & Hlt).
    apply match_here_lits in Hi as (C & s' & ls' & Hd & HC & Hrun & ->).
    apply match_here_run in Hrun as (n & -> & Hne & Hall & Hrest).
    pose proof (Forall2_length _ _ _ HC) as HlenC.
    change (length (lit "charset=")) with 8%nat in *.
    assert (Hg : take ([1; 1; 1; 1; 1; 1; 1; 1; n] !!! 8)%nat
                   (drop (i + sum_list (take 8 [1; 1; 1; 1; 1; 1; 1; 1; n]%nat)) ct)
                 = take n s').
    { change (take n (drop (i + 8) ct) = take n s').
      by rewrite <- drop_drop, Hd, HlenC, drop_app_length. }
    cbn [repeat app]. rewrite Hg.
    exists (take i ct), C, (drop n s').
    split; [by rewrite take_drop, <- Hd, take_drop|]. split; [done|].
    split; [done|]. split; [done|]. split; [done|].
    intros pre' C' c' post' Heq HC' Hc'.
    destruct (decide (length pre' < i)%nat) as [Hlt'|Hge];
      [|rewrite length_take; lia].
    destruct (Hfound _ _ _ _ Heq HC' Hc') as [ls' Hls'].
    rewrite (Hlt _ Hlt') in Hls'. discriminate Hls'.
  - intros pre C c post Heq HC.
    destruct (Ascii.eqb_spec c ";") as [Hc|Hc]; [done|].
    destruct (Hfound _ _ _ _ Heq HC Hc) as [ls' Hls'].
    rewrite (search_from_None true _ _ Hs (length pre)) in Hls'; [discriminate|].
    rewrite Heq, length_app. lia.
Qed.
